(** * Streaming table parser: [TableExtractor] of [main.py]

    A shallow embedding of the event handlers of [TableExtractor]
    ([handle_starttag], [handle_endtag], [handle_data]) together with the
    string operations they call ([str.lower], [str.strip], [str.join] and
    [re.sub(r'\s+', ' ', _)]), and the properties of the streaming parser
    stated over that embedding.  The pure parts of the functions around the
    parser follow: [clean_filename], the saving loop of [main] and the
    lines of [print_table_summary]. *)

From Stdlib Require Import String Ascii List Bool NArith ZArith Lia.
From Stdlib Require Import DecimalString DecimalNat.
Import ListNotations.

(** ** Python strings *)

Module PyStr.

(** A Python [str] is a sequence of Unicode code points. *)
Abbreviation char := N.
Abbreviation str := (list N).

Local Open Scope N_scope.

(** String literals of the source, written as Rocq strings. *)
Definition of_string (s : string) : str :=
  map N_of_ascii (list_ascii_of_string s).

Fixpoint eqb (a b : str) : bool :=
  match a, b with
  | [], [] => true
  | x :: a', y :: b' => N.eqb x y && eqb a' b'
  | _, _ => false
  end.

(** [x in xs] for a list of strings. *)
Fixpoint mem (x : str) (xs : list str) : bool :=
  match xs with
  | [] => false
  | y :: ys => eqb x y || mem x ys
  end.

(** [Py_UNICODE_ISSPACE]: the predicate behind both [str.strip()] with no
    argument and the class [\s] of a [str] pattern. *)
Definition isspace (c : char) : bool :=
  ((0x09 <=? c) && (c <=? 0x0D))
  || ((0x1C <=? c) && (c <=? 0x20))
  || (c =? 0x85) || (c =? 0xA0) || (c =? 0x1680)
  || ((0x2000 <=? c) && (c <=? 0x200A))
  || (c =? 0x2028) || (c =? 0x2029) || (c =? 0x202F)
  || (c =? 0x205F) || (c =? 0x3000).

Definition SPACE : char := 0x20.

(** [str.lower] on the ASCII range.  The handlers only compare
    [tag.lower()] with the literals ['table'], ['tr'], ['td'] and ['th'];
    no code point outside ASCII lowercases to a string over the letters of
    these literals, so on every tag the comparisons below agree with
    those of the source. *)
Definition lower_char (c : char) : char :=
  if (0x41 <=? c) && (c <=? 0x5A) then c + 0x20 else c.

Definition lower (s : str) : str := map lower_char s.

Fixpoint lstrip (s : str) : str :=
  match s with
  | [] => []
  | c :: r => if isspace c then lstrip r else s
  end.

Definition rstrip (s : str) : str :=
  fold_right
    (fun c acc =>
       match acc with
       | [] => if isspace c then [] else [c]
       | _ :: _ => c :: acc
       end) [] s.

(** [s.strip()] *)
Definition strip (s : str) : str := lstrip (rstrip s).

(** [sep.join(xs)] *)
Fixpoint join (sep : str) (xs : list str) : str :=
  match xs with
  | [] => []
  | x :: r =>
      match r with
      | [] => x
      | _ :: _ => x ++ sep ++ join sep r
      end
  end.

(** [re.sub(r'\s+', ' ', s)]: every maximal run of whitespace is replaced
    by one space.  [in_run] records that the previous character was
    whitespace, that is, that the current match of [\s+] is still being
    extended. *)
Fixpoint sub_ws_from (in_run : bool) (s : str) : str :=
  match s with
  | [] => []
  | c :: r =>
      if isspace c
      then (if in_run then sub_ws_from true r else SPACE :: sub_ws_from true r)
      else c :: sub_ws_from false r
  end.

Definition sub_ws (s : str) : str := sub_ws_from false s.

(** Truth value of a list or string: non-empty. *)
Definition truthy {A : Type} (l : list A) : bool :=
  match l with [] => false | _ :: _ => true end.

End PyStr.

Import PyStr.

(** ** The parser state and its handlers *)

(** A cell is a string, a row a list of cells, a table a list of rows. *)
Abbreviation Row := (list str).
Abbreviation Table := (list (list str)).

Record TableExtractor : Type := mkTableExtractor {
  tables : list Table;
  current_table : Table;
  current_row : list str;
  current_cell : list str;
  in_table : bool;
  in_row : bool;
  in_cell : bool;
  in_header : bool;
  table_count : Z
}.

(** [__init__] *)
Definition init : TableExtractor :=
  {| tables := []; current_table := []; current_row := []; current_cell := [];
     in_table := false; in_row := false; in_cell := false; in_header := false;
     table_count := 0%Z |}.

Definition s_table : str := Eval cbv in of_string "table".
Definition s_tr : str := Eval cbv in of_string "tr".
Definition s_td : str := Eval cbv in of_string "td".
Definition s_th : str := Eval cbv in of_string "th".

Definition attrs_t := list (str * option str).

(** *** Bodies of the branches of [handle_starttag] *)

(** [self.in_table = True; self.current_table = []; self.table_count += 1] *)
Definition open_table (self : TableExtractor) : TableExtractor :=
  {| tables := tables self;
     current_table := [];
     current_row := current_row self;
     current_cell := current_cell self;
     in_table := true;
     in_row := in_row self;
     in_cell := in_cell self;
     in_header := in_header self;
     table_count := (table_count self + 1)%Z |}.

(** [self.in_row = True; self.current_row = []] *)
Definition open_row (self : TableExtractor) : TableExtractor :=
  {| tables := tables self;
     current_table := current_table self;
     current_row := [];
     current_cell := current_cell self;
     in_table := in_table self;
     in_row := true;
     in_cell := in_cell self;
     in_header := in_header self;
     table_count := table_count self |}.

(** [self.in_cell = True; self.in_header = (tag.lower() == 'th');
    self.current_cell = []] *)
Definition open_cell (self : TableExtractor) (tag : str) : TableExtractor :=
  {| tables := tables self;
     current_table := current_table self;
     current_row := current_row self;
     current_cell := [];
     in_table := in_table self;
     in_row := in_row self;
     in_cell := true;
     in_header := eqb (lower tag) s_th;
     table_count := table_count self |}.

Definition handle_starttag (self : TableExtractor) (tag : str) (attrs : attrs_t)
  : TableExtractor :=
  if eqb (lower tag) s_table then open_table self
  else if eqb (lower tag) s_tr && in_table self then open_row self
  else if mem (lower tag) [s_td; s_th] && in_row self then open_cell self tag
  else self.

(** *** Bodies of the branches of [handle_endtag] *)

(** [if self.current_table: self.tables.append(self.current_table)]
    then [self.in_table = False; self.current_table = []].  The appended
    list is never touched again: [current_table] is rebound to a fresh
    list, so the result set holds a value, not a shared buffer. *)
Definition close_table (self : TableExtractor) : TableExtractor :=
  {| tables := if truthy (current_table self)
               then tables self ++ [current_table self]
               else tables self;
     current_table := [];
     current_row := current_row self;
     current_cell := current_cell self;
     in_table := false;
     in_row := in_row self;
     in_cell := in_cell self;
     in_header := in_header self;
     table_count := table_count self |}.

(** [if self.current_row: self.current_table.append(self.current_row)]
    then [self.in_row = False; self.current_row = []]. *)
Definition close_row (self : TableExtractor) : TableExtractor :=
  {| tables := tables self;
     current_table := if truthy (current_row self)
                      then current_table self ++ [current_row self]
                      else current_table self;
     current_row := [];
     current_cell := current_cell self;
     in_table := in_table self;
     in_row := false;
     in_cell := in_cell self;
     in_header := in_header self;
     table_count := table_count self |}.

(** The cell text computed when a cell closes:
    [' '.join(self.current_cell).strip()] followed by
    [re.sub(r'\s+', ' ', cell_text)]. *)
Definition cell_text (fragments : list str) : str :=
  sub_ws (strip (join [SPACE] fragments)).

(** [self.current_row.append(cell_text); self.in_cell = False;
    self.in_header = False; self.current_cell = []] *)
Definition close_cell (self : TableExtractor) : TableExtractor :=
  {| tables := tables self;
     current_table := current_table self;
     current_row := current_row self ++ [cell_text (current_cell self)];
     current_cell := [];
     in_table := in_table self;
     in_row := in_row self;
     in_cell := false;
     in_header := false;
     table_count := table_count self |}.

Definition handle_endtag (self : TableExtractor) (tag : str) : TableExtractor :=
  if eqb (lower tag) s_table && in_table self then close_table self
  else if eqb (lower tag) s_tr && in_row self then close_row self
  else if mem (lower tag) [s_td; s_th] && in_cell self then close_cell self
  else self.

(** [self.current_cell.append(cleaned_data)] *)
Definition append_fragment (self : TableExtractor) (cleaned_data : str)
  : TableExtractor :=
  {| tables := tables self;
     current_table := current_table self;
     current_row := current_row self;
     current_cell := current_cell self ++ [cleaned_data];
     in_table := in_table self;
     in_row := in_row self;
     in_cell := in_cell self;
     in_header := in_header self;
     table_count := table_count self |}.

Definition handle_data (self : TableExtractor) (data : str) : TableExtractor :=
  if in_cell self then
    let cleaned_data := strip data in
    if truthy cleaned_data then append_fragment self cleaned_data else self
  else self.

(** ** Event streams *)

Inductive event : Type :=
| StartTag (tag : str) (attrs : attrs_t)
| EndTag (tag : str)
| Data (data : str).

(** One callback of the tokenizer. *)
Definition feed1 (self : TableExtractor) (e : event) : TableExtractor :=
  match e with
  | StartTag tag attrs => handle_starttag self tag attrs
  | EndTag tag => handle_endtag self tag
  | Data data => handle_data self data
  end.

Definition feed (self : TableExtractor) (evs : list event) : TableExtractor :=
  fold_left feed1 evs self.

(** The result set of a fresh parser fed a whole stream. *)
Definition extract (evs : list event) : list Table :=
  tables (feed init evs).

(** ** Notions used by the properties *)

(** *** The transition table of the parser

    One constructor per row of the state machine: the three open events,
    the three close events and text data, each with its precondition, and
    the rows that ignore an event. *)
Inductive step : TableExtractor -> event -> TableExtractor -> Prop :=
| step_open_table st tag attrs :
    lower tag = s_table ->
    step st (StartTag tag attrs) (open_table st)
| step_open_row st tag attrs :
    lower tag = s_tr -> in_table st = true ->
    step st (StartTag tag attrs) (open_row st)
| step_open_cell st tag attrs :
    lower tag = s_td \/ lower tag = s_th -> in_row st = true ->
    step st (StartTag tag attrs) (open_cell st tag)
| step_open_row_outside st tag attrs :
    lower tag = s_tr -> in_table st = false ->
    step st (StartTag tag attrs) st
| step_open_cell_outside st tag attrs :
    lower tag = s_td \/ lower tag = s_th -> in_row st = false ->
    step st (StartTag tag attrs) st
| step_open_other st tag attrs :
    lower tag <> s_table -> lower tag <> s_tr ->
    lower tag <> s_td -> lower tag <> s_th ->
    step st (StartTag tag attrs) st
| step_close_table st tag :
    lower tag = s_table -> in_table st = true ->
    step st (EndTag tag) (close_table st)
| step_close_row st tag :
    lower tag = s_tr -> in_row st = true ->
    step st (EndTag tag) (close_row st)
| step_close_cell st tag :
    lower tag = s_td \/ lower tag = s_th -> in_cell st = true ->
    step st (EndTag tag) (close_cell st)
| step_close_table_unmatched st tag :
    lower tag = s_table -> in_table st = false ->
    step st (EndTag tag) st
| step_close_row_unmatched st tag :
    lower tag = s_tr -> in_row st = false ->
    step st (EndTag tag) st
| step_close_cell_unmatched st tag :
    lower tag = s_td \/ lower tag = s_th -> in_cell st = false ->
    step st (EndTag tag) st
| step_close_other st tag :
    lower tag <> s_table -> lower tag <> s_tr ->
    lower tag <> s_td -> lower tag <> s_th ->
    step st (EndTag tag) st
| step_data_fragment st data :
    in_cell st = true -> strip data <> [] ->
    step st (Data data) (append_fragment st (strip data))
| step_data_blank st data :
    in_cell st = true -> strip data = [] ->
    step st (Data data) st
| step_data_outside st data :
    in_cell st = false ->
    step st (Data data) st.

(** A run of the transition table over a stream. *)
Inductive steps : TableExtractor -> list event -> TableExtractor -> Prop :=
| steps_nil st : steps st [] st
| steps_cons st e st1 evs st2 :
    step st e st1 -> steps st1 evs st2 -> steps st (e :: evs) st2.

(** *** Counting the close events that emit a table *)

Definition is_close_table (e : event) : bool :=
  match e with
  | EndTag tag => eqb (lower tag) s_table
  | _ => false
  end.

(** The number of close "table" events of [evs] that arrive, when the
    stream is fed from state [self], while a table is open and the
    current-table buffer is non-empty. *)
Fixpoint emitting_closes (self : TableExtractor) (evs : list event) : nat :=
  match evs with
  | [] => 0
  | e :: rest =>
      (if is_close_table e && in_table self && truthy (current_table self)
       then 1 else 0)
      + emitting_closes (feed1 self e) rest
  end.

(** *** Cell text as the data model describes it

    Each raw fragment is trimmed, fragments empty after trimming are
    dropped, the rest is joined with single spaces, every whitespace run
    is collapsed to one space, and the result is trimmed.  The steps are
    written here on their own, apart from the string functions with which
    the handlers are modelled, to be compared with them. *)

(** The number of whitespace characters at the front of [s]. *)
Fixpoint leading_ws (s : str) : nat :=
  match s with
  | [] => 0
  | c :: r => if isspace c then S (leading_ws r) else 0
  end.

(** Trimming: the whitespace at the front is cut off, then, reading the
    string backwards, the whitespace at the end. *)
Definition spec_trim_front (s : str) : str := skipn (leading_ws s) s.

Definition spec_trim (s : str) : str :=
  rev (spec_trim_front (rev (spec_trim_front s))).

(** Joining with single spaces: the first fragment, then each further
    fragment behind one space. *)
Definition spec_join_spaces (fragments : list str) : str :=
  match fragments with
  | [] => []
  | first :: others => first ++ concat (map (fun f => SPACE :: f) others)
  end.

(** Collapsing: a whitespace character followed by another one is
    dropped, the last one of a run becomes a space. *)
Fixpoint spec_collapse (s : str) : str :=
  match s with
  | [] => []
  | c :: r =>
      if isspace c
      then match r with
           | [] => [SPACE]
           | d :: _ => if isspace d then spec_collapse r
                       else SPACE :: spec_collapse r
           end
      else c :: spec_collapse r
  end.

Definition spec_nonempty (s : str) : bool :=
  negb (Nat.eqb (List.length s) 0).

Definition spec_cell_text (raw : list str) : str :=
  spec_trim
    (spec_collapse
       (spec_join_spaces (filter spec_nonempty (map spec_trim raw)))).

(** Collapse whitespace runs to one space, then trim. *)
Definition normalize (s : str) : str := strip (sub_ws s).

(** *** Empty-container suppression *)

Definition rows_nonempty (t : Table) : Prop := Forall (fun r : Row => r <> []) t.

Definition suppression_inv (st : TableExtractor) : Prop :=
  Forall (fun t : Table => t <> [] /\ rows_nonempty t) (tables st)
  /\ rows_nonempty (current_table st).

(** *** Nested tables *)

(** The state [st] with other rows collected for the open table. *)
Definition with_current_table (st : TableExtractor) (rows : Table) : TableExtractor :=
  {| tables := tables st;
     current_table := rows;
     current_row := current_row st;
     current_cell := current_cell st;
     in_table := in_table st;
     in_row := in_row st;
     in_cell := in_cell st;
     in_header := in_header st;
     table_count := table_count st |}.

(** Events that neither open nor close a table. *)
Definition no_table_tag (e : event) : bool :=
  match e with
  | StartTag tag _ => negb (eqb (lower tag) s_table)
  | EndTag tag => negb (eqb (lower tag) s_table)
  | Data _ => true
  end.

(** *** Streams of the scenarios *)

Definition lit (s : string) : str := of_string s.
Definition op (s : string) : event := StartTag (of_string s) [].
Definition cl (s : string) : event := EndTag (of_string s).
Definition txt (s : string) : event := Data (of_string s).

(** [<table><tr><th>A</th><th>B</th></tr><tr><td>1</td><td>2</td></tr></table>] *)
Definition two_row_table : list event :=
  [ op "table";
    op "tr"; op "th"; txt "A"; cl "th"; op "th"; txt "B"; cl "th"; cl "tr";
    op "tr"; op "td"; txt "1"; cl "td"; op "td"; txt "2"; cl "td"; cl "tr";
    cl "table" ].

(** The empty string. *)
Definition empty_str : str := [].

(** [<table><tr><td></td></tr></table>] *)
Definition empty_cell_table : list event :=
  [ op "table"; op "tr"; op "td"; cl "td"; cl "tr"; cl "table" ].

(** The text ["  multi\n\tspace   text  "]. *)
Definition multi_space_text : str :=
  lit "  multi" ++ [0x0A; 0x09]%N ++ lit "space   text  ".

(** [<table><tr><td>a</td></tr>], the outer table up to the inner open,
    and [<tr><td>b</td></tr></table>], the inner table after its open tag. *)
Definition outer_prefix : list event :=
  [ op "table"; op "tr"; op "td"; txt "a"; cl "td"; cl "tr" ].

Definition inner_suffix : list event :=
  [ op "tr"; op "td"; txt "b"; cl "td"; cl "tr"; cl "table" ].

(** ** The rest of the parser's behaviour: notions *)

(** *** Well-formed streams

    The event stream of a list of tables written out as plain markup:
    one [<td>] element with one text per cell, one [<tr>] element per row,
    one [<table>] element per table. *)
Definition render_cell (c : str) : list event :=
  [StartTag s_td []; Data c; EndTag s_td].

Definition render_row (r : Row) : list event :=
  StartTag s_tr [] :: concat (map render_cell r) ++ [EndTag s_tr].

Definition render_table (t : Table) : list event :=
  StartTag s_table [] :: concat (map render_row t) ++ [EndTag s_table].

Definition render (ts : list Table) : list event :=
  concat (map render_table ts).

(** What the parser makes of the text [c] of a cell, and of a list of
    tables written out as a stream: each cell trimmed and collapsed, the
    rows without a cell left out, then the tables without a row left out. *)
Definition normal_form (c : str) : str := sub_ws (strip c).

Definition parsed_rows (t : Table) : Table :=
  filter truthy (map (map normal_form) t).

Definition parsed_tables (ts : list Table) : list Table :=
  filter truthy (map parsed_rows ts).

(** Tables as the parser can emit them: at least one row, and at least one
    cell in each row. *)
Definition table_shaped (t : Table) : Prop := t <> [] /\ rows_nonempty t.

(** *** Tidy cell strings

    A string is tidy when it is empty, or when it neither starts nor ends
    with a whitespace character and every whitespace character in it is a
    single U+0020 standing between two other characters.  [prev_ws] tells
    that the previous position does not allow whitespace. *)
Fixpoint tidy_from (prev_ws : bool) (s : str) : bool :=
  match s with
  | [] => negb prev_ws
  | c :: r =>
      if isspace c
      then N.eqb c SPACE && negb prev_ws && tidy_from true r
      else tidy_from false r
  end.

Definition tidy (s : str) : bool :=
  match s with
  | [] => true
  | _ :: _ => tidy_from true s
  end.

Definition tidy_row (r : Row) : Prop := Forall (fun c : str => tidy c = true) r.
Definition tidy_table (t : Table) : Prop := Forall tidy_row t.

Definition tidy_inv (st : TableExtractor) : Prop :=
  Forall tidy_table (tables st)
  /\ tidy_table (current_table st)
  /\ tidy_row (current_row st).

(** *** Events that matter *)

(** An event can change the state only if it is a tag named table, tr, td
    or th (in any case), or a text that is not blank. *)
Definition relevant (e : event) : bool :=
  match e with
  | StartTag tag _ => mem (lower tag) [s_table; s_tr; s_td; s_th]
  | EndTag tag => mem (lower tag) [s_table; s_tr; s_td; s_th]
  | Data data => truthy (strip data)
  end.

Definition is_open_table (e : event) : bool :=
  match e with
  | StartTag tag _ => eqb (lower tag) s_table
  | _ => false
  end.

(** Each emitted table and the table being collected were opened by an
    open "table" event of their own. *)
Definition counter_inv (st : TableExtractor) : Prop :=
  (Z.of_nat (List.length (tables st)) + (if in_table st then 1 else 0)
   <= table_count st)%Z.

(** The stream with every header-cell tag renamed to a data-cell tag. *)
Definition th_to_td_tag (tag : str) : str :=
  if eqb (lower tag) s_th then s_td else tag.

Definition th_to_td (e : event) : event :=
  match e with
  | StartTag tag attrs => StartTag (th_to_td_tag tag) attrs
  | EndTag tag => EndTag (th_to_td_tag tag)
  | Data data => Data data
  end.

(** The state with the header flag cleared. *)
Definition forget_header (st : TableExtractor) : TableExtractor :=
  {| tables := tables st;
     current_table := current_table st;
     current_row := current_row st;
     current_cell := current_cell st;
     in_table := in_table st;
     in_row := in_row st;
     in_cell := in_cell st;
     in_header := false;
     table_count := table_count st |}.

(** ** File names, saving and the summary *)

(** [str(n)] for a non-negative integer. *)
Definition str_of_nat (n : nat) : str :=
  of_string (NilEmpty.string_of_uint (Nat.to_uint n)).

Definition UNDERSCORE : char := 0x5F%N.

(** The character class of the first substitution of [clean_filename]:
    less-than, greater-than, colon, double quote, slash, backslash,
    vertical bar, question mark and asterisk. *)
Definition invalid_char (c : char) : bool :=
  existsb (N.eqb c)
    [0x3C; 0x3E; 0x3A; 0x22; 0x2F; 0x5C; 0x7C; 0x3F; 0x2A]%N.

(** [re.sub(class, '_', filename)] for that one-character class. *)
Definition sub_invalid (s : str) : str :=
  map (fun c => if invalid_char c then UNDERSCORE else c) s.

(** [re.sub(r'\s+', rep, s)] for a one-character replacement [rep]. *)
Fixpoint sub_ws_by_from (rep : char) (in_run : bool) (s : str) : str :=
  match s with
  | [] => []
  | c :: r =>
      if isspace c
      then (if in_run then sub_ws_by_from rep true r
            else rep :: sub_ws_by_from rep true r)
      else c :: sub_ws_by_from rep false r
  end.

Definition sub_ws_by (rep : char) (s : str) : str := sub_ws_by_from rep false s.

Definition clean_filename (filename : str) : str :=
  let filename := sub_invalid filename in
  let filename := sub_ws_by UNDERSCORE filename in
  firstn 100 filename.

(** A character that [clean_filename] lets through. *)
Definition safe_char (c : char) : bool :=
  negb (invalid_char c) && negb (isspace c).

(** The fallback of [extract_page_title]. *)
Definition default_title : str := Eval cbv in of_string "webpage_tables".

(** [f"{page_title}_table_{i}.csv"] *)
Definition csv_name (page_title : str) (i : nat) : str :=
  page_title ++ of_string "_table_" ++ str_of_nat i ++ of_string ".csv".

(** The saving loop of [main],
    [for i, table in enumerate(tables, 1): if table: ...]:
    the calls of [save_table_to_csv] it makes, in order, each with the
    file name that is joined to the output directory and the table. *)
Fixpoint saves_from (page_title : str) (i : nat) (ts : list Table)
  : list (str * Table) :=
  match ts with
  | [] => []
  | table :: rest =>
      (if truthy table then [(csv_name page_title i, table)] else [])
      ++ saves_from page_title (S i) rest
  end.

Definition main_saves (page_title : str) (ts : list Table) : list (str * Table) :=
  saves_from page_title 1 ts.

Definition QUOTE : char := 0x22%N.

(** One header of the sample line of [print_table_summary]: the header in
    double quotes, cut to 20 characters and followed by three dots when it
    is longer. *)
Definition show_header (h : str) : str :=
  if Nat.ltb 20 (List.length h)
  then QUOTE :: firstn 20 h ++ of_string "..." ++ [QUOTE]
  else QUOTE :: h ++ [QUOTE].

(** [', '.join(... for h in headers)] with [headers = table[0][:5]]. *)
Definition headers_str (row0 : Row) : str :=
  join (of_string ", ") (map show_header (firstn 5 row0)).

(** The strings printed for table number [i]. *)
Definition table_summary (i : nat) (table : Table) : list str :=
  match table with
  | [] => [of_string "Table " ++ str_of_nat i ++ of_string ": Empty"]
  | row0 :: _ =>
      (of_string "Table " ++ str_of_nat i ++ of_string ": "
         ++ str_of_nat (List.length table) ++ of_string " rows, "
         ++ str_of_nat (List.length row0) ++ of_string " columns")
      :: (if truthy row0
          then [of_string "  Sample headers: " ++ headers_str row0]
          else [])
  end.

Fixpoint summary_from (i : nat) (ts : list Table) : list str :=
  match ts with
  | [] => []
  | table :: rest => table_summary i table ++ summary_from (S i) rest
  end.

(** The arguments of the calls of [print] made by [print_table_summary],
    in order. *)
Definition print_table_summary (ts : list Table) (page_title : str) : list str :=
  [ 0x0A%N :: of_string "=== TABLE EXTRACTION SUMMARY ===";
    of_string "Source: " ++ page_title;
    of_string "Total tables found: " ++ str_of_nat (List.length ts) ]
  ++ summary_from 1 ts.

(** ** Facts about the string operations *)

Section StringFacts.

Local Open Scope N_scope.

Lemma eqb_refl (a : str) : eqb a a = true.
Proof.
  induction a as [|x a IH]; simpl; [reflexivity|].
  now rewrite N.eqb_refl, IH.
Qed.

Lemma eqb_eq (a b : str) : eqb a b = true <-> a = b.
Proof.
  split; [|intros ->; apply eqb_refl].
  revert b; induction a as [|x a IH]; intros [|y b]; simpl; try discriminate; auto.
  intros H. apply andb_true_iff in H as [Hx Hr].
  apply N.eqb_eq in Hx. f_equal; auto.
Qed.

Lemma truthy_false {A : Type} (l : list A) : truthy l = false <-> l = [].
Proof. destruct l; simpl; split; congruence. Qed.

Lemma truthy_true {A : Type} (l : list A) : truthy l = true <-> l <> [].
Proof. destruct l; simpl; split; congruence. Qed.

Lemma isspace_SPACE : isspace SPACE = true.
Proof. reflexivity. Qed.

(** The unfolding of [rstrip] on a non-empty string. *)
Lemma rstrip_cons (c : char) (s : str) :
  rstrip (c :: s) =
  match rstrip s with
  | [] => if isspace c then [] else [c]
  | _ :: _ => c :: rstrip s
  end.
Proof. reflexivity. Qed.

Lemma rstrip_cons_nonspace (c : char) (s : str) :
  isspace c = false -> rstrip (c :: s) = c :: rstrip s.
Proof. intros H. rewrite rstrip_cons, H. now destruct (rstrip s). Qed.

(** [re.sub] seen as a scan: at a whitespace character one space is
    emitted and the rest of the run is skipped. *)
Lemma sub_ws_from_true_lstrip (s : str) :
  sub_ws_from true s = sub_ws_from true (lstrip s).
Proof.
  induction s as [|c r IH]; simpl; [reflexivity|].
  destruct (isspace c) eqn:E; [exact IH|].
  simpl. now rewrite E.
Qed.

Lemma sub_ws_from_true_nonspace (c : char) (s : str) :
  isspace c = false -> sub_ws_from true (c :: s) = sub_ws (c :: s).
Proof. intros H. unfold sub_ws. simpl. now rewrite H. Qed.

Lemma sub_ws_scan (c : char) (r : str) :
  sub_ws (c :: r) =
  if isspace c then SPACE :: sub_ws (lstrip r) else c :: sub_ws r.
Proof.
  unfold sub_ws at 1. simpl. destruct (isspace c); [|reflexivity].
  f_equal. rewrite sub_ws_from_true_lstrip.
  destruct (lstrip r) as [|d t] eqn:El; [reflexivity|].
  apply sub_ws_from_true_nonspace.
  clear -El. induction r as [|e r IH]; simpl in El; [discriminate|].
  destruct (isspace e) eqn:Ee; [auto|]. now inversion El; subst.
Qed.

Lemma lstrip_sub_ws_from (b : bool) (s : str) :
  lstrip (sub_ws_from b s) = sub_ws (lstrip s).
Proof.
  revert b. induction s as [|c r IH]; intros b; simpl; [reflexivity|].
  destruct (isspace c) eqn:E.
  - destruct b; simpl; apply IH.
  - simpl. rewrite E. unfold sub_ws. simpl. now rewrite E.
Qed.

Lemma sub_ws_from_nil (b : bool) (s : str) :
  sub_ws_from b s = [] -> forallb isspace s = true.
Proof.
  revert b. induction s as [|c r IH]; intros b; simpl; [reflexivity|].
  destruct (isspace c); [|discriminate].
  destruct b; [apply IH|discriminate].
Qed.

Lemma sub_ws_from_true_allspace (s : str) :
  forallb isspace s = true -> sub_ws_from true s = [].
Proof.
  induction s as [|c r IH]; simpl; [reflexivity|].
  destruct (isspace c); simpl; [exact IH|discriminate].
Qed.

Lemma rstrip_nil_allspace (s : str) :
  rstrip s = [] <-> forallb isspace s = true.
Proof.
  induction s as [|c r IH]; [simpl; tauto|].
  rewrite rstrip_cons. simpl.
  destruct (rstrip r) as [|d t] eqn:Er.
  - destruct (isspace c); simpl; [tauto|]. split; discriminate.
  - split; [discriminate|]. intros H. apply andb_true_iff in H as [_ H].
    apply IH in H. discriminate.
Qed.

Lemma rstrip_allspace_nil (s : str) :
  forallb isspace (rstrip s) = true -> rstrip s = [].
Proof.
  induction s as [|c r IH]; [reflexivity|].
  rewrite rstrip_cons.
  destruct (rstrip r) as [|d t] eqn:Er.
  - destruct (isspace c) eqn:E; [reflexivity|]. simpl. now rewrite E.
  - intros H. simpl in H. apply andb_true_iff in H as [_ H].
    specialize (IH H). discriminate.
Qed.

Lemma rstrip_sub_ws_from (b : bool) (s : str) :
  rstrip (sub_ws_from b s) = sub_ws_from b (rstrip s).
Proof.
  revert b. induction s as [|c r IH]; intros b; [reflexivity|].
  destruct (isspace c) eqn:E.
  - rewrite rstrip_cons, E. simpl sub_ws_from at 1. rewrite E.
    destruct (rstrip r) as [|d t] eqn:Er.
    + assert (X : sub_ws_from true r = []).
      { apply sub_ws_from_true_allspace, rstrip_nil_allspace, Er. }
      rewrite X. now destruct b.
    + assert (Y : rstrip (sub_ws_from true r) <> []).
      { rewrite IH. intros Hn. apply sub_ws_from_nil in Hn.
        rewrite <- Er in Hn. apply rstrip_allspace_nil in Hn. congruence. }
      change (sub_ws_from b (c :: d :: t))
        with (if isspace c
              then (if b then sub_ws_from true (d :: t)
                    else SPACE :: sub_ws_from true (d :: t))
              else c :: sub_ws_from false (d :: t)).
      rewrite E, <- IH.
      destruct b; [reflexivity|].
      rewrite rstrip_cons.
      destruct (rstrip (sub_ws_from true r)); [congruence|reflexivity].
  - rewrite (rstrip_cons_nonspace _ _ E). simpl. rewrite E.
    rewrite (rstrip_cons_nonspace _ _ E). now rewrite IH.
Qed.

(** Collapsing whitespace runs and trimming commute. *)
Lemma strip_sub_ws (s : str) : strip (sub_ws s) = sub_ws (strip s).
Proof.
  unfold strip, sub_ws. rewrite rstrip_sub_ws_from. apply lstrip_sub_ws_from.
Qed.

Lemma sub_ws_from_idem (b : bool) (s : str) :
  sub_ws_from b (sub_ws_from b s) = sub_ws_from b s.
Proof.
  revert b. induction s as [|c r IH]; intros b; simpl; [reflexivity|].
  destruct (isspace c) eqn:E.
  - destruct b; [apply IH|]. simpl. now rewrite IH.
  - simpl. now rewrite E, IH.
Qed.

Lemma lstrip_idem (s : str) : lstrip (lstrip s) = lstrip s.
Proof.
  induction s as [|c r IH]; simpl; [reflexivity|].
  destruct (isspace c) eqn:E; [exact IH|]. simpl. now rewrite E.
Qed.

Lemma rstrip_idem (s : str) : rstrip (rstrip s) = rstrip s.
Proof.
  induction s as [|c r IH]; [reflexivity|].
  rewrite rstrip_cons.
  destruct (rstrip r) as [|d t] eqn:Er.
  - destruct (isspace c) eqn:E; [reflexivity|]. simpl. now rewrite E.
  - rewrite rstrip_cons, IH. reflexivity.
Qed.

Lemma rstrip_lstrip (s : str) : rstrip (lstrip s) = lstrip (rstrip s).
Proof.
  induction s as [|c r IH]; [reflexivity|].
  simpl lstrip at 1. destruct (isspace c) eqn:E.
  - rewrite IH, rstrip_cons, E.
    destruct (rstrip r) as [|d t] eqn:Er; [reflexivity|].
    simpl. now rewrite E.
  - rewrite (rstrip_cons_nonspace _ _ E). simpl. now rewrite E.
Qed.

Lemma strip_idem (s : str) : strip (strip s) = strip s.
Proof.
  unfold strip.
  now rewrite (rstrip_lstrip (rstrip s)), rstrip_idem, lstrip_idem.
Qed.

End StringFacts.

(** ** Facts about the handlers *)

Section HandlerFacts.

Lemma mem_cell_tag (x : str) :
  mem x [s_td; s_th] = true <-> x = s_td \/ x = s_th.
Proof.
  simpl. rewrite orb_false_r, orb_true_iff, !eqb_eq. tauto.
Qed.

Lemma eqb_neq (a b : str) : eqb a b = false <-> a <> b.
Proof.
  split.
  - intros H Heq. apply eqb_eq in Heq. congruence.
  - intros H. destruct (eqb a b) eqn:E; [|reflexivity].
    apply eqb_eq in E. contradiction.
Qed.

Lemma mem_cell_tag_false (x : str) :
  mem x [s_td; s_th] = false <-> x <> s_td /\ x <> s_th.
Proof.
  simpl. rewrite orb_false_r, orb_false_iff, !eqb_neq. tauto.
Qed.

Lemma feed_cons (st : TableExtractor) (e : event) (evs : list event) :
  feed st (e :: evs) = feed (feed1 st e) evs.
Proof. reflexivity. Qed.

Lemma feed_app (st : TableExtractor) (evs1 evs2 : list event) :
  feed st (evs1 ++ evs2) = feed (feed st evs1) evs2.
Proof. unfold feed. apply fold_left_app. Qed.

(** A cell tag is neither the table tag nor the row tag. *)
Lemma cell_tag_guards (x : str) :
  x = s_td \/ x = s_th ->
  eqb x s_table = false /\ eqb x s_tr = false /\ mem x [s_td; s_th] = true.
Proof. intros [-> | ->]; repeat split. Qed.

Lemma handle_starttag_cell (st : TableExtractor) (tag : str) (attrs : attrs_t) :
  lower tag = s_td \/ lower tag = s_th -> in_row st = true ->
  handle_starttag st tag attrs = open_cell st tag.
Proof.
  intros Ht Hr. destruct (cell_tag_guards _ Ht) as (E1 & E2 & E3).
  unfold handle_starttag. now rewrite E1, E2, E3, Hr.
Qed.

Lemma handle_endtag_cell (st : TableExtractor) (tag : str) :
  lower tag = s_td \/ lower tag = s_th -> in_cell st = true ->
  handle_endtag st tag = close_cell st.
Proof.
  intros Ht Hc. destruct (cell_tag_guards _ Ht) as (E1 & E2 & E3).
  unfold handle_endtag. now rewrite E1, E2, E3, Hc.
Qed.

(** Every transition of the table is the one the handlers take. *)
Lemma step_feed1 (st : TableExtractor) (e : event) (st' : TableExtractor) :
  step st e st' -> st' = feed1 st e.
Proof.
  destruct 1 as
    [ st tag attrs Ht | st tag attrs Ht Hf | st tag attrs Ht Hf
    | st tag attrs Ht Hf | st tag attrs Ht Hf | st tag attrs N1 N2 N3 N4
    | st tag Ht Hf | st tag Ht Hf | st tag Ht Hf
    | st tag Ht Hf | st tag Ht Hf | st tag Ht Hf | st tag N1 N2 N3 N4
    | st data Hc Hd | st data Hc Hd | st data Hc ]; simpl.
  - unfold handle_starttag. now rewrite Ht.
  - unfold handle_starttag. now rewrite Ht, Hf.
  - symmetry. now apply handle_starttag_cell.
  - unfold handle_starttag. now rewrite Ht, Hf.
  - destruct (cell_tag_guards _ Ht) as (E1 & E2 & E3).
    unfold handle_starttag. now rewrite E1, E2, E3, Hf.
  - unfold handle_starttag.
    apply eqb_neq in N1, N2. rewrite N1, N2.
    now rewrite (proj2 (mem_cell_tag_false _) (conj N3 N4)).
  - unfold handle_endtag. now rewrite Ht, Hf.
  - unfold handle_endtag. now rewrite Ht, Hf.
  - symmetry. now apply handle_endtag_cell.
  - unfold handle_endtag. now rewrite Ht, Hf.
  - unfold handle_endtag. now rewrite Ht, Hf.
  - destruct (cell_tag_guards _ Ht) as (E1 & E2 & E3).
    unfold handle_endtag. now rewrite E1, E2, E3, Hf.
  - unfold handle_endtag.
    apply eqb_neq in N1, N2. rewrite N1, N2.
    now rewrite (proj2 (mem_cell_tag_false _) (conj N3 N4)).
  - unfold handle_data. rewrite Hc. cbv zeta.
    now rewrite (proj2 (truthy_true _) Hd).
  - unfold handle_data. rewrite Hc. cbv zeta.
    now rewrite (proj2 (truthy_false _) Hd).
  - unfold handle_data. now rewrite Hc.
Qed.

(** Conversely the handlers never leave the table: whatever the state and
    the event, some row applies. *)
Lemma feed1_step (st : TableExtractor) (e : event) : step st e (feed1 st e).
Proof.
  destruct e as [tag attrs | tag | data]; cbn [feed1].
  - unfold handle_starttag.
    destruct (eqb (lower tag) s_table) eqn:E1.
    { apply eqb_eq in E1. now constructor. }
    destruct (eqb (lower tag) s_tr) eqn:E2; cbn [andb].
    { apply eqb_eq in E2. destruct (in_table st) eqn:Hf.
      - now apply step_open_row.
      - assert (E3 : mem (lower tag) [s_td; s_th] = false) by now rewrite E2.
        rewrite E3. now apply step_open_row_outside. }
    destruct (mem (lower tag) [s_td; s_th]) eqn:E3; cbn [andb].
    { apply mem_cell_tag in E3. destruct (in_row st) eqn:Hf.
      - now apply step_open_cell.
      - now apply step_open_cell_outside. }
    apply mem_cell_tag_false in E3 as [N3 N4].
    apply eqb_neq in E1, E2. now apply step_open_other.
  - unfold handle_endtag.
    destruct (eqb (lower tag) s_table) eqn:E1; cbn [andb].
    { apply eqb_eq in E1. destruct (in_table st) eqn:Hf.
      - now apply step_close_table.
      - assert (E2 : eqb (lower tag) s_tr = false) by now rewrite E1.
        assert (E3 : mem (lower tag) [s_td; s_th] = false) by now rewrite E1.
        rewrite E2, E3. now apply step_close_table_unmatched. }
    destruct (eqb (lower tag) s_tr) eqn:E2; cbn [andb].
    { apply eqb_eq in E2. destruct (in_row st) eqn:Hf.
      - now apply step_close_row.
      - assert (E3 : mem (lower tag) [s_td; s_th] = false) by now rewrite E2.
        rewrite E3. now apply step_close_row_unmatched. }
    destruct (mem (lower tag) [s_td; s_th]) eqn:E3; cbn [andb].
    { apply mem_cell_tag in E3. destruct (in_cell st) eqn:Hf.
      - now apply step_close_cell.
      - now apply step_close_cell_unmatched. }
    apply mem_cell_tag_false in E3 as [N3 N4].
    apply eqb_neq in E1, E2. now apply step_close_other.
  - unfold handle_data. destruct (in_cell st) eqn:Hc.
    + cbv zeta. destruct (truthy (strip data)) eqn:Hd.
      * apply truthy_true in Hd. now apply step_data_fragment.
      * apply truthy_false in Hd. now apply step_data_blank.
    + now apply step_data_outside.
Qed.

Lemma feed_steps (st : TableExtractor) (evs : list event) :
  steps st evs (feed st evs).
Proof.
  revert st. induction evs as [|e evs IH]; intros st.
  - constructor.
  - rewrite feed_cons. econstructor; [apply feed1_step | apply IH].
Qed.

Lemma steps_feed (st : TableExtractor) (evs : list event) (st' : TableExtractor) :
  steps st evs st' -> st' = feed st evs.
Proof.
  induction 1 as [st | st e st1 evs st2 H1 _ IH]; [reflexivity|].
  rewrite feed_cons. apply step_feed1 in H1. now subst st1.
Qed.

End HandlerFacts.

(** ** Facts about streams *)

Section StreamFacts.

(** Text events inside an open cell only extend the fragment buffer. *)
Lemma feed_data_in_cell (raw : list str) (st : TableExtractor) :
  in_cell st = true ->
  let st' := feed st (map Data raw) in
  current_cell st' = current_cell st ++ filter truthy (map strip raw)
  /\ current_row st' = current_row st
  /\ in_cell st' = true.
Proof.
  revert st. induction raw as [|d raw IH]; intros st Hc; cbn zeta.
  - simpl. now rewrite app_nil_r.
  - cbn [map]. rewrite feed_cons. cbn [feed1 filter].
    unfold handle_data. rewrite Hc. cbv zeta.
    destruct (truthy (strip d)) eqn:Hd.
    + destruct (IH (append_fragment st (strip d)) Hc) as (H1 & H2 & H3).
      rewrite H1, H2, H3. cbn [append_fragment current_cell current_row].
      now rewrite <- app_assoc.
    + now apply IH.
Qed.

Lemma feed1_tables_length (st : TableExtractor) (e : event) :
  List.length (tables (feed1 st e)) =
  List.length (tables st)
  + (if is_close_table e && in_table st && truthy (current_table st)
     then 1 else 0).
Proof.
  destruct e as [tag attrs | tag | data]; cbn [feed1 is_close_table andb].
  - unfold handle_starttag.
    destruct (eqb (lower tag) s_table); [simpl; lia|].
    destruct (eqb (lower tag) s_tr && in_table st); [simpl; lia|].
    destruct (mem (lower tag) [s_td; s_th] && in_row st); simpl; lia.
  - unfold handle_endtag.
    destruct (eqb (lower tag) s_table && in_table st).
    + cbn [close_table tables andb].
      destruct (truthy (current_table st)); [|lia].
      rewrite List.length_app. reflexivity.
    + cbn [andb].
      destruct (eqb (lower tag) s_tr && in_row st); [simpl; lia|].
      destruct (mem (lower tag) [s_td; s_th] && in_cell st); simpl; lia.
  - unfold handle_data. destruct (in_cell st); [|lia].
    cbv zeta. destruct (truthy (strip data)); simpl; lia.
Qed.

Lemma feed_tables_length (evs : list event) (st : TableExtractor) :
  List.length (tables (feed st evs)) = List.length (tables st) + emitting_closes st evs.
Proof.
  revert st. induction evs as [|e evs IH]; intros st.
  - simpl. lia.
  - rewrite feed_cons, IH, feed1_tables_length. cbn [emitting_closes]. lia.
Qed.

Lemma rows_nonempty_snoc (t : Table) (r : Row) :
  rows_nonempty t -> r <> [] -> rows_nonempty (t ++ [r]).
Proof.
  intros Ht Hr. apply Forall_app. split; [exact Ht|]. now constructor.
Qed.

Lemma suppression_inv_init : suppression_inv init.
Proof. split; constructor. Qed.

Lemma suppression_inv_feed1 (st : TableExtractor) (e : event) :
  suppression_inv st -> suppression_inv (feed1 st e).
Proof.
  intros [Ht Hc].
  destruct (feed1_step st e); try (split; assumption).
  - split; [exact Ht | constructor].
  - unfold suppression_inv. cbn [close_table tables current_table].
    split; [|constructor].
    destruct (truthy (current_table st)) eqn:E; [|exact Ht].
    apply truthy_true in E. apply Forall_app. split; [exact Ht|].
    constructor; [now split | constructor].
  - unfold suppression_inv. cbn [close_row tables current_table].
    split; [exact Ht|].
    destruct (truthy (current_row st)) eqn:E; [|exact Hc].
    apply truthy_true in E. now apply rows_nonempty_snoc.
Qed.

Lemma suppression_inv_feed (evs : list event) (st : TableExtractor) :
  suppression_inv st -> suppression_inv (feed st evs).
Proof.
  revert st. induction evs as [|e evs IH]; intros st H; [exact H|].
  rewrite feed_cons. now apply IH, suppression_inv_feed1.
Qed.

(** Events other than table tags leave the table flag and the result set
    as they are. *)
Lemma feed1_no_table_tag (st : TableExtractor) (e : event) :
  no_table_tag e = true ->
  in_table (feed1 st e) = in_table st /\ tables (feed1 st e) = tables st.
Proof.
  intros Hn. destruct (feed1_step st e); try (split; reflexivity);
    cbn [no_table_tag] in Hn; apply negb_true_iff, eqb_neq in Hn; contradiction.
Qed.

Lemma feed_no_table_tag (evs : list event) (st : TableExtractor) :
  forallb no_table_tag evs = true ->
  in_table (feed st evs) = in_table st /\ tables (feed st evs) = tables st.
Proof.
  revert st. induction evs as [|e evs IH]; intros st H; [now split|].
  cbn [forallb] in H. apply andb_true_iff in H as [He Hr].
  rewrite feed_cons. destruct (IH (feed1 st e) Hr) as [-> ->].
  now apply feed1_no_table_tag.
Qed.

End StreamFacts.

(** ** The described cell text and the computed one *)

Section SpecFacts.

Lemma spec_trim_front_lstrip (s : str) : spec_trim_front s = lstrip s.
Proof.
  unfold spec_trim_front. induction s as [|c r IH]; [reflexivity|].
  simpl. destruct (isspace c); [exact IH | reflexivity].
Qed.

Lemma lstrip_snoc (l : str) (c : char) :
  lstrip (l ++ [c]) =
  match lstrip l with
  | [] => if isspace c then [] else [c]
  | _ :: _ => lstrip l ++ [c]
  end.
Proof.
  induction l as [|x l IH]; [reflexivity|].
  simpl. destruct (isspace x); [exact IH | reflexivity].
Qed.

(** Trailing whitespace is leading whitespace of the reversed string. *)
Lemma rstrip_rev (s : str) : rstrip s = rev (lstrip (rev s)).
Proof.
  induction s as [|c r IH]; [reflexivity|].
  rewrite rstrip_cons. cbn [rev]. rewrite lstrip_snoc, IH.
  destruct (lstrip (rev r)) as [|d t] eqn:E.
  - simpl. destruct (isspace c); reflexivity.
  - rewrite rev_unit.
    destruct (rev (d :: t)) as [|e u] eqn:E'; [|reflexivity].
    apply (f_equal (@List.length N)) in E'. rewrite length_rev in E'.
    discriminate E'.
Qed.

Lemma spec_trim_strip (s : str) : spec_trim s = strip s.
Proof.
  unfold spec_trim. rewrite !spec_trim_front_lstrip, <- rstrip_rev.
  unfold strip. apply rstrip_lstrip.
Qed.

Lemma spec_nonempty_truthy (s : str) : spec_nonempty s = truthy s.
Proof. destruct s; reflexivity. Qed.

Lemma spec_join_spaces_join (fragments : list str) :
  spec_join_spaces fragments = join [SPACE] fragments.
Proof.
  destruct fragments as [|x r]; [reflexivity|].
  revert x. induction r as [|y r IH]; intros x.
  - simpl. now rewrite app_nil_r.
  - change (join [SPACE] (x :: y :: r)) with (x ++ [SPACE] ++ join [SPACE] (y :: r)).
    rewrite <- IH. reflexivity.
Qed.

(** A run of whitespace gives one space, whether the space is put out at
    the first character of the run or at the last one. *)
Lemma spec_collapse_sub_ws (s : str) : spec_collapse s = sub_ws s.
Proof.
  unfold sub_ws. induction s as [|c r IH]; [reflexivity|].
  cbn [spec_collapse sub_ws_from]. destruct (isspace c) eqn:E.
  - destruct r as [|d r']; [reflexivity|].
    rewrite IH. cbn [sub_ws_from]. destruct (isspace d); reflexivity.
  - now rewrite IH.
Qed.

Lemma spec_cell_text_computed (raw : list str) :
  spec_cell_text raw = cell_text (filter truthy (map strip raw)).
Proof.
  unfold spec_cell_text, cell_text.
  rewrite spec_trim_strip, spec_collapse_sub_ws, spec_join_spaces_join.
  rewrite (map_ext spec_trim strip spec_trim_strip).
  rewrite (filter_ext spec_nonempty truthy spec_nonempty_truthy).
  apply strip_sub_ws.
Qed.

End SpecFacts.

(** ** Properties of the streaming parser *)

(** C1, as stated, fails: with the outer table holding the row [["a"]], an
    inner open "table" changes the state (it is not a no-op), and after the
    inner table's rows and the first close "table" the only output table is
    [[["b"]]]; the outer row [["a"]] is in no output table, whereas without
    the inner open both rows are in one table. *)
Lemma nested_open_not_noop :
  in_table (feed init outer_prefix) = true
  /\ current_table (feed init outer_prefix) = [[lit "a"]]
  /\ feed1 (feed init outer_prefix) (op "table") <> feed init outer_prefix
  /\ extract (outer_prefix ++ op "table" :: inner_suffix) = [[[lit "b"]]]
  /\ ~ In [lit "a"] (concat (extract (outer_prefix ++ op "table" :: inner_suffix)))
  /\ extract (outer_prefix ++ inner_suffix) = [[[lit "a"]; [lit "b"]]].
Proof.
  repeat split; try reflexivity.
  - intros H. apply (f_equal current_table) in H. discriminate H.
  - vm_compute. intros [H | []]. discriminate H.
Qed.

(** C1, amended: an open "table" event arriving while a table is open
    pushes no frame and changes no flag, neither the row and cell buffers
    nor the result set, but it empties the current-table buffer and
    increments the counter, so the rows collected before it are discarded:
    the rest of the run is the same whatever rows the buffer held.  The rows
    closed afterwards go to the single current-table buffer, and the first
    close "table" event ends the collection, emitting that buffer when it is
    non-empty. *)
Theorem nested_open_resets_buffer
  (st : TableExtractor) (tag : str) (attrs : attrs_t) :
  lower tag = s_table ->
  in_table st = true ->
  let st1 := handle_starttag st tag attrs in
  (current_table st1 = []
   /\ table_count st1 = (table_count st + 1)%Z
   /\ in_table st1 = true
   /\ tables st1 = tables st
   /\ current_row st1 = current_row st
   /\ current_cell st1 = current_cell st
   /\ in_row st1 = in_row st
   /\ in_cell st1 = in_cell st
   /\ in_header st1 = in_header st)
  /\ (forall (rows : Table) (rest : list event),
        feed (with_current_table st rows) (StartTag tag attrs :: rest)
        = feed st (StartTag tag attrs :: rest))
  /\ (forall (mid : list event) (tag' : str),
        forallb no_table_tag mid = true ->
        lower tag' = s_table ->
        let st2 := feed st1 mid in
        let st3 := handle_endtag st2 tag' in
        in_table st2 = true
        /\ in_table st3 = false
        /\ current_table st3 = []
        /\ tables st3 =
           tables st ++ (if truthy (current_table st2)
                         then [current_table st2] else [])).
Proof.
  intros Ht Hin. cbv zeta.
  assert (E : forall s, handle_starttag s tag attrs = open_table s).
  { intros s. unfold handle_starttag. now rewrite Ht. }
  rewrite E. split; [|split].
  - repeat split.
  - intros rows rest. rewrite !feed_cons. cbn [feed1]. now rewrite !E.
  - intros mid tag' Hmid Ht'.
    destruct (feed_no_table_tag mid (open_table st) Hmid) as [H1 H2].
    cbn [open_table in_table tables] in H1, H2.
    unfold handle_endtag. rewrite Ht', H1. cbn [eqb andb].
    change (eqb s_table s_table) with true. cbn [andb close_table
      in_table current_table tables].
    rewrite H2. repeat split; try assumption.
    destruct (truthy (current_table (feed (open_table st) mid)));
      [reflexivity | now rewrite app_nil_r].
Qed.

Lemma nested_open_resets_buffer_witness :
  lower (lit "TABLE") = s_table
  /\ in_table (feed init outer_prefix) = true
  /\ tables (handle_endtag
               (feed (handle_starttag (feed init outer_prefix) (lit "TABLE") [])
                     (removelast inner_suffix))
               (lit "table"))
     = [] ++ [[[lit "b"]]].
Proof.
  split; [reflexivity|]. split; [reflexivity|].
  pose proof (nested_open_resets_buffer (feed init outer_prefix) (lit "TABLE") []
                eq_refl eq_refl) as H.
  cbv zeta in H. destruct H as (_ & _ & H).
  destruct (H (removelast inner_suffix) (lit "table") eq_refl eq_refl)
    as (_ & _ & _ & H4).
  exact H4.
Defined.

(** C2: the number of tables in the result set of a stream equals the
    number of its close "table" events that arrive while a table is open
    and the current-table buffer is non-empty. *)
Theorem tables_count_emitting_closes (evs : list event) :
  List.length (extract evs) = emitting_closes init evs.
Proof. unfold extract. now rewrite feed_tables_length. Qed.

(** C3: opening a cell, feeding it any sequence of texts and closing it
    appends to the current row the string got by trimming each fragment,
    dropping the fragments that are then empty, joining the rest with single
    spaces, collapsing each whitespace run to one space and trimming; a cell
    fed ["  multi\n\tspace   text  "] yields ["multi space text"], and
    several fragments are joined by one space each. *)
Theorem cell_text_normalization
  (st : TableExtractor) (otag ctag : str) (attrs : attrs_t) (raw : list str) :
  in_row st = true ->
  lower otag = s_td \/ lower otag = s_th ->
  lower ctag = s_td \/ lower ctag = s_th ->
  let st' := feed st (StartTag otag attrs :: map Data raw ++ [EndTag ctag]) in
  current_row st' = current_row st ++ [spec_cell_text raw]
  /\ current_cell st' = []
  /\ in_cell st' = false
  /\ spec_cell_text [multi_space_text] = lit "multi space text"
  /\ spec_cell_text [lit "Hello "; lit "World"] = lit "Hello World"
  /\ spec_cell_text
       [lit "  a"; [0x09; 0x0A]%N; lit "b   c "; lit "d"; lit " "; lit "e"]
     = lit "a b c d e"
  /\ current_row
       (feed (feed init [op "table"; op "tr"])
             [op "td"; txt "Hello "; op "b"; txt "World"; cl "b"; cl "td"])
     = [lit "Hello World"].
Proof.
  intros Hr Ho Hc. cbv zeta.
  rewrite feed_cons, feed_app. cbn [feed1].
  rewrite (handle_starttag_cell st otag attrs Ho Hr).
  destruct (feed_data_in_cell raw (open_cell st otag) eq_refl) as (H1 & H2 & H3).
  cbn [open_cell current_cell current_row app] in H1, H2.
  cbn [feed fold_left feed1].
  change (fold_left feed1 (map Data raw) (open_cell st otag))
    with (feed (open_cell st otag) (map Data raw)).
  rewrite (handle_endtag_cell _ ctag Hc H3).
  cbn [close_cell current_row current_cell in_cell].
  rewrite H1, H2, spec_cell_text_computed. repeat split.
Qed.

Lemma cell_text_normalization_witness :
  current_row
    (feed (feed init [op "table"; op "tr"])
          (op "td"
             :: map Data [multi_space_text; lit "   "; lit "Hello "; lit "World"]
             ++ [cl "td"]))
  = [lit "multi space text Hello World"].
Proof.
  destruct (cell_text_normalization (feed init [op "table"; op "tr"])
              (lit "td") (lit "td") []
              [multi_space_text; lit "   "; lit "Hello "; lit "World"]
              eq_refl (or_introl eq_refl) (or_introl eq_refl))
    as (H & _).
  exact H.
Defined.

(** C4: after every prefix of every stream, each table of the result set
    is a non-empty list of rows, and each row of the result set and of the
    current-table buffer is a non-empty list of cells. *)
Theorem empty_containers_suppressed (evs : list event) (n : nat) :
  suppression_inv (feed init (firstn n evs)).
Proof. apply suppression_inv_feed, suppression_inv_init. Qed.

(** C5: in every state every stream of events, whatever the tag names,
    attributes and texts, is consumed to the end: each event takes one
    transition of the table, the run reaches exactly one state, and it is
    the state the handlers compute. *)
Theorem parser_total (st : TableExtractor) (evs : list event) :
  exists st' : TableExtractor,
    steps st evs st'
    /\ (forall st'' : TableExtractor, steps st evs st'' -> st'' = st')
    /\ feed st evs = st'.
Proof.
  exists (feed st evs). split; [apply feed_steps|].
  split; [apply steps_feed | reflexivity].
Qed.

(** C6: the stream of
    [<table><tr><th>A</th><th>B</th></tr><tr><td>1</td><td>2</td></tr></table>]
    fed to a fresh parser yields exactly one table, with the two rows
    [["A","B"]] and [["1","2"]]. *)
Theorem two_row_table_extracted :
  extract two_row_table = [[[lit "A"; lit "B"]; [lit "1"; lit "2"]]].
Proof. reflexivity. Qed.

(** C7: a cell string produced by the parser is a fixed point of the
    normalization, in the order of the text (collapse, then trim) and in the
    order of the code (trim, then collapse); fed back as the only fragment
    of a cell it is produced again. *)
Theorem normalization_idempotent (fragments : list str) :
  normalize (cell_text fragments) = cell_text fragments
  /\ sub_ws (strip (cell_text fragments)) = cell_text fragments
  /\ cell_text [cell_text fragments] = cell_text fragments.
Proof.
  assert (H : normalize (cell_text fragments) = cell_text fragments).
  { unfold normalize, cell_text, sub_ws.
    rewrite sub_ws_from_idem. fold (sub_ws (strip (join [SPACE] fragments))).
    now rewrite strip_sub_ws, strip_idem. }
  assert (H' : sub_ws (strip (cell_text fragments)) = cell_text fragments).
  { rewrite <- strip_sub_ws. exact H. }
  repeat split; [exact H | exact H' | exact H'].
Qed.

(** C8: a close "table" event while no table is open, a close "row" event
    while no row is open and a close "cell" event while no cell is open
    leave the whole state as it is. *)
Theorem unmatched_close_ignored (st : TableExtractor) (tag : str) :
  (lower tag = s_table /\ in_table st = false)
  \/ (lower tag = s_tr /\ in_row st = false)
  \/ ((lower tag = s_td \/ lower tag = s_th) /\ in_cell st = false) ->
  handle_endtag st tag = st.
Proof.
  intros [[Ht Hf] | [[Ht Hf] | [Ht Hf]]].
  - symmetry. apply (step_feed1 st (EndTag tag)).
    now apply step_close_table_unmatched.
  - symmetry. apply (step_feed1 st (EndTag tag)).
    now apply step_close_row_unmatched.
  - symmetry. apply (step_feed1 st (EndTag tag)).
    now apply step_close_cell_unmatched.
Qed.

Lemma unmatched_close_ignored_witness :
  handle_endtag (feed init [op "table"; op "tr"]) (lit "td")
  = feed init [op "table"; op "tr"].
Proof.
  apply unmatched_close_ignored. right. right.
  split; [left; reflexivity | reflexivity].
Defined.

(** C9: closing an open cell appends exactly one string to the current
    row, the empty string when no fragment was accumulated; the stream of
    [<table><tr><td></td></tr></table>] yields one table with the single
    row whose only cell is the empty string. *)
Theorem empty_cell_kept (st : TableExtractor) (tag : str) :
  lower tag = s_td \/ lower tag = s_th ->
  in_cell st = true ->
  current_row (handle_endtag st tag)
  = current_row st ++ [cell_text (current_cell st)]
  /\ (current_cell st = [] ->
      current_row (handle_endtag st tag) = current_row st ++ [empty_str])
  /\ extract empty_cell_table = [[[empty_str]]].
Proof.
  intros Ht Hc. rewrite (handle_endtag_cell st tag Ht Hc).
  cbn [close_cell current_row]. repeat split.
  intros ->. reflexivity.
Qed.

Lemma empty_cell_kept_witness :
  current_row (handle_endtag (feed init [op "table"; op "tr"; op "td"]) (lit "TD"))
  = [] ++ [empty_str].
Proof.
  destruct (empty_cell_kept (feed init [op "table"; op "tr"; op "td"]) (lit "TD")
              (or_introl eq_refl) eq_refl) as (_ & H & _).
  exact (H eq_refl).
Defined.

(** C10: while no cell is open, a text event with any payload leaves the
    whole state as it is. *)
Theorem text_outside_cell_discarded (st : TableExtractor) (data : str) :
  in_cell st = false -> handle_data st data = st.
Proof. intros H. unfold handle_data. now rewrite H. Qed.

Lemma text_outside_cell_discarded_witness :
  handle_data (feed init [op "table"; op "tr"]) (lit "stray text")
  = feed init [op "table"; op "tr"].
Proof. apply text_outside_cell_discarded. reflexivity. Defined.

(** ** Tidy strings and the cell text *)

Section TidyFacts.

Lemma lstrip_length (s : str) : List.length (lstrip s) <= List.length s.
Proof.
  induction s as [|c r IH]; simpl; [lia|].
  destruct (isspace c); simpl; lia.
Qed.

Lemma lstrip_fix_head (x : char) (r : str) :
  lstrip (x :: r) = x :: r -> isspace x = false.
Proof.
  simpl. destruct (isspace x); [|reflexivity].
  intros H. pose proof (lstrip_length r) as L. rewrite H in L. simpl in L. lia.
Qed.

Lemma lstrip_head_nonspace (x : char) (r : str) :
  isspace x = false -> lstrip (x :: r) = x :: r.
Proof. intros H. simpl. now rewrite H. Qed.

Lemma lstrip_strip (s : str) : lstrip (strip s) = strip s.
Proof. unfold strip. apply lstrip_idem. Qed.

Lemma rstrip_strip (s : str) : rstrip (strip s) = strip s.
Proof. unfold strip. now rewrite rstrip_lstrip, rstrip_idem. Qed.

Lemma rstrip_fix_cons (c : char) (r : str) :
  rstrip (c :: r) = c :: r ->
  rstrip r = r /\ (isspace c = true -> r <> []).
Proof.
  rewrite rstrip_cons. destruct (rstrip r) as [|d t] eqn:Er.
  - destruct (isspace c); [discriminate|].
    intros H. inversion H; subst. split; [reflexivity | discriminate].
  - intros H. inversion H as [H1]. split; [reflexivity|].
    intros _ Hn. rewrite Hn in H1. discriminate.
Qed.

(** What [re.sub] returns is tidy, as soon as its argument does not end
    in whitespace and, inside a run, is not exhausted. *)
Lemma tidy_from_sub_ws (t : str) (b : bool) :
  rstrip t = t -> (b = true -> t <> []) ->
  tidy_from b (sub_ws_from b t) = true.
Proof.
  revert b. induction t as [|c r IH]; intros b Hr Hb.
  - destruct b; [now specialize (Hb eq_refl) | reflexivity].
  - destruct (rstrip_fix_cons c r Hr) as [Hr' Hne].
    simpl. destruct (isspace c) eqn:E.
    + specialize (Hne eq_refl). destruct b.
      * now apply IH.
      * change (tidy_from false (SPACE :: sub_ws_from true r))
          with (tidy_from true (sub_ws_from true r)).
        now apply IH.
    + simpl. rewrite E. apply IH; [exact Hr' | discriminate].
Qed.

Lemma tidy_normal (s : str) : tidy (sub_ws (strip s)) = true.
Proof.
  pose proof (lstrip_strip s) as Hl. pose proof (rstrip_strip s) as Hr.
  destruct (strip s) as [|x r]; [reflexivity|].
  pose proof (lstrip_fix_head x r Hl) as Hx.
  rewrite <- (sub_ws_from_true_nonspace x r Hx).
  pose proof (tidy_from_sub_ws (x :: r) true Hr) as H.
  destruct (sub_ws_from true (x :: r)); [reflexivity|].
  apply H. discriminate.
Qed.

Lemma tidy_cell_text (fragments : list str) : tidy (cell_text fragments) = true.
Proof. apply tidy_normal. Qed.

Lemma tidy_from_fix (s : str) (p : bool) :
  tidy_from p s = true -> sub_ws_from p s = s /\ rstrip s = s.
Proof.
  revert p. induction s as [|c r IH]; intros p H; [now split|].
  simpl in H. simpl sub_ws_from. destruct (isspace c) eqn:E.
  - apply andb_true_iff in H as [H H2]. apply andb_true_iff in H as [H0 H1].
    apply N.eqb_eq in H0. apply negb_true_iff in H1. subst p.
    destruct (IH true H2) as [I1 I2]. rewrite I1, <- H0. split; [reflexivity|].
    rewrite rstrip_cons, I2. destruct r; [discriminate H2 | reflexivity].
  - destruct (IH false H) as [I1 I2].
    split; [now rewrite I1 | now rewrite rstrip_cons_nonspace, I2].
Qed.

Lemma tidy_head (x : char) (r : str) : tidy (x :: r) = true -> isspace x = false.
Proof.
  unfold tidy, tidy_from. destruct (isspace x); [|reflexivity].
  rewrite andb_false_r. discriminate.
Qed.

(** A tidy string is left as it is by trimming and by collapsing. *)
Lemma tidy_fix (c : str) : tidy c = true -> strip c = c /\ sub_ws c = c.
Proof.
  destruct c as [|x r]; [now split|]. intros H.
  pose proof (tidy_head x r H) as Hx.
  destruct (tidy_from_fix (x :: r) true H) as [H1 H2]. split.
  - unfold strip. rewrite H2. now apply lstrip_head_nonspace.
  - now rewrite <- (sub_ws_from_true_nonspace x r Hx).
Qed.

(** The cell produced from the single text [c]. *)
Lemma cell_text_single (c : str) :
  cell_text (filter truthy [strip c]) = sub_ws (strip c).
Proof.
  unfold cell_text. simpl. destruct (truthy (strip c)) eqn:E.
  - simpl. now rewrite strip_idem.
  - apply truthy_false in E. now rewrite E.
Qed.

(** In a tidy string every whitespace character is U+0020 and no two
    whitespace characters are adjacent. *)
Lemma tidy_from_spaces (s : str) (p : bool) :
  tidy_from p s = true ->
  (forall x, In x s -> isspace x = true -> x = SPACE)
  /\ (forall u x y v, s = u ++ x :: y :: v ->
        isspace x = true -> isspace y = false).
Proof.
  revert p. induction s as [|c r IH]; intros p H.
  - split; [intros x [] | intros [|? ?] x y v Hs; discriminate Hs].
  - simpl in H. destruct (isspace c) eqn:E.
    + apply andb_true_iff in H as [H H2]. apply andb_true_iff in H as [H0 _].
      apply N.eqb_eq in H0. destruct (IH true H2) as [I1 I2]. split.
      * intros x [<- | Hin] Hx; [exact H0 | now apply I1].
      * intros [|a u] x y v Hs Hx.
        -- inversion Hs; subst. simpl in H2.
           destruct (isspace y); [|reflexivity].
           rewrite andb_false_r in H2. discriminate.
        -- inversion Hs; subst. now apply (I2 u x y v).
    + destruct (IH false H) as [I1 I2]. split.
      * intros x [<- | Hin] Hx; [congruence | now apply I1].
      * intros [|a u] x y v Hs Hx.
        -- inversion Hs; subst. congruence.
        -- inversion Hs; subst. now apply (I2 u x y v).
Qed.

End TidyFacts.

(** ** Further facts about runs of the parser *)

Section RunFacts.

Lemma feed1_tables_extend (st : TableExtractor) (e : event) :
  exists later : list Table, tables (feed1 st e) = tables st ++ later.
Proof.
  destruct (feed1_step st e);
    try (exists []; cbn; now rewrite app_nil_r).
  cbn [close_table tables]. destruct (truthy (current_table st)).
  - now exists [current_table st].
  - exists []. now rewrite app_nil_r.
Qed.

Lemma feed_tables_extend (evs : list event) (st : TableExtractor) :
  exists later : list Table, tables (feed st evs) = tables st ++ later.
Proof.
  revert st. induction evs as [|e evs IH]; intros st.
  - exists []. simpl. now rewrite app_nil_r.
  - rewrite feed_cons. destruct (IH (feed1 st e)) as [l2 H2].
    destruct (feed1_tables_extend st e) as [l1 H1].
    exists (l1 ++ l2). now rewrite H2, H1, app_assoc.
Qed.

Lemma feed1_table_count (st : TableExtractor) (e : event) :
  table_count (feed1 st e)
  = (table_count st + (if is_open_table e then 1 else 0))%Z.
Proof.
  destruct (feed1_step st e) as
    [ st tag attrs Ht | st tag attrs Ht Hf | st tag attrs Ht Hf
    | st tag attrs Ht Hf | st tag attrs Ht Hf | st tag attrs N1 N2 N3 N4
    | | | | | | | | | | ];
    cbn [is_open_table]; try (cbn; lia).
  - rewrite Ht. reflexivity.
  - rewrite Ht. cbn. lia.
  - destruct Ht as [-> | ->]; cbn; lia.
  - rewrite Ht. cbn. lia.
  - destruct Ht as [-> | ->]; cbn; lia.
  - apply eqb_neq in N1. rewrite N1. lia.
Qed.

Lemma feed_table_count (evs : list event) (st : TableExtractor) :
  table_count (feed st evs)
  = (table_count st + Z.of_nat (List.length (filter is_open_table evs)))%Z.
Proof.
  revert st. induction evs as [|e evs IH]; intros st.
  - simpl. lia.
  - rewrite feed_cons, IH, feed1_table_count. cbn [filter].
    destruct (is_open_table e); cbn [List.length]; lia.
Qed.

Lemma counter_inv_feed1 (st : TableExtractor) (e : event) :
  counter_inv st -> counter_inv (feed1 st e).
Proof.
  unfold counter_inv. intros H.
  destruct (feed1_step st e) as
    [ | | | | | | st tag Ht Hf | | | | | | | | | ]; try exact H.
  - cbn [open_table tables in_table table_count].
    destruct (in_table st); lia.
  - cbn [close_table tables in_table table_count]. rewrite Hf in H.
    destruct (truthy (current_table st)); [|lia].
    rewrite List.length_app. cbn [List.length]. lia.
Qed.

Lemma counter_inv_feed (evs : list event) (st : TableExtractor) :
  counter_inv st -> counter_inv (feed st evs).
Proof.
  revert st. induction evs as [|e evs IH]; intros st H; [exact H|].
  rewrite feed_cons. now apply IH, counter_inv_feed1.
Qed.

Lemma feed1_closed_no_open (st : TableExtractor) (e : event) :
  in_table st = false -> is_open_table e = false ->
  in_table (feed1 st e) = false /\ tables (feed1 st e) = tables st.
Proof.
  intros Hc Ho.
  destruct (feed1_step st e) as
    [ st tag attrs Ht | | | | | | st tag Ht Hf | | | | | | | | | ];
    try (split; [exact Hc | reflexivity]).
  - cbn [is_open_table] in Ho. rewrite Ht in Ho. discriminate.
  - congruence.
Qed.

Lemma feed_closed_no_open (evs : list event) (st : TableExtractor) :
  in_table st = false -> forallb (fun e => negb (is_open_table e)) evs = true ->
  tables (feed st evs) = tables st.
Proof.
  revert st. induction evs as [|e evs IH]; intros st Hc H; [reflexivity|].
  cbn [forallb] in H. apply andb_true_iff in H as [He Hr].
  apply negb_true_iff in He.
  destruct (feed1_closed_no_open st e Hc He) as [H1 H2].
  rewrite feed_cons, IH; assumption.
Qed.

Lemma emitting_closes_no_close (evs : list event) (st : TableExtractor) :
  forallb (fun e => negb (is_close_table e)) evs = true ->
  emitting_closes st evs = 0.
Proof.
  revert st. induction evs as [|e evs IH]; intros st H; [reflexivity|].
  cbn [forallb] in H. apply andb_true_iff in H as [He Hr].
  apply negb_true_iff in He. cbn [emitting_closes]. rewrite He, IH; auto.
Qed.

Lemma feed1_irrelevant (st : TableExtractor) (e : event) :
  relevant e = false -> feed1 st e = st.
Proof.
  intros H. symmetry. apply step_feed1.
  destruct e as [tag attrs | tag | data]; cbn [relevant mem] in H.
  - repeat (apply orb_false_iff in H as [?E H]).
    apply step_open_other; now apply eqb_neq.
  - repeat (apply orb_false_iff in H as [?E H]).
    apply step_close_other; now apply eqb_neq.
  - apply truthy_false in H. destruct (in_cell st) eqn:Hc.
    + now apply step_data_blank.
    + now apply step_data_outside.
Qed.

Lemma tidy_inv_init : tidy_inv init.
Proof. repeat split; constructor. Qed.

Lemma tidy_inv_feed1 (st : TableExtractor) (e : event) :
  tidy_inv st -> tidy_inv (feed1 st e).
Proof.
  intros (Ht & Hc & Hr).
  destruct (feed1_step st e); try (repeat split; assumption).
  - repeat split; [exact Ht | constructor | exact Hr].
  - repeat split; [exact Ht | exact Hc | constructor].
  - unfold tidy_inv. cbn [close_table tables current_table current_row].
    repeat split; [|constructor | exact Hr].
    destruct (truthy (current_table st)); [|exact Ht].
    apply Forall_app. split; [exact Ht | now constructor].
  - unfold tidy_inv. cbn [close_row tables current_table current_row].
    repeat split; [exact Ht | | constructor].
    destruct (truthy (current_row st)); [|exact Hc].
    apply Forall_app. split; [exact Hc | now constructor].
  - unfold tidy_inv. cbn [close_cell tables current_table current_row].
    repeat split; [exact Ht | exact Hc |].
    apply Forall_app. split; [exact Hr|].
    constructor; [apply tidy_cell_text | constructor].
Qed.

Lemma tidy_inv_feed (evs : list event) (st : TableExtractor) :
  tidy_inv st -> tidy_inv (feed st evs).
Proof.
  revert st. induction evs as [|e evs IH]; intros st H; [exact H|].
  rewrite feed_cons. now apply IH, tidy_inv_feed1.
Qed.

End RunFacts.

(** ** Well-formed streams *)

Section RenderFacts.

Lemma feed_render_cell (c : str) (st : TableExtractor) :
  in_row st = true ->
  let st' := feed st (render_cell c) in
  tables st' = tables st
  /\ current_table st' = current_table st
  /\ current_row st' = current_row st ++ [normal_form c]
  /\ in_table st' = in_table st
  /\ in_row st' = true.
Proof.
  intros Hr. cbv zeta. unfold render_cell. rewrite !feed_cons. cbn [feed1].
  rewrite (handle_starttag_cell st s_td [] (or_introl eq_refl) Hr).
  unfold handle_data. cbn [open_cell in_cell]. cbv zeta.
  pose proof (cell_text_single c) as Hc. cbn [filter] in Hc.
  destruct (truthy (strip c)).
  - rewrite handle_endtag_cell; [|left; reflexivity | reflexivity].
    cbn. unfold normal_form. rewrite <- Hc. repeat split. exact Hr.
  - rewrite handle_endtag_cell; [|left; reflexivity | reflexivity].
    cbn. unfold normal_form. rewrite <- Hc. repeat split. exact Hr.
Qed.

Lemma feed_render_cells (r : Row) (st : TableExtractor) :
  in_row st = true ->
  let st' := feed st (concat (map render_cell r)) in
  tables st' = tables st
  /\ current_table st' = current_table st
  /\ current_row st' = current_row st ++ map normal_form r
  /\ in_table st' = in_table st
  /\ in_row st' = true.
Proof.
  revert st. induction r as [|c r IH]; intros st Hr; cbv zeta.
  - simpl. rewrite app_nil_r. repeat split. exact Hr.
  - cbn [map concat]. rewrite feed_app.
    destruct (feed_render_cell c st Hr) as (H1 & H2 & H3 & H4 & H5).
    destruct (IH _ H5) as (I1 & I2 & I3 & I4 & I5).
    rewrite I1, I2, I3, I4, I5, H1, H2, H3, H4.
    repeat split. now rewrite <- app_assoc.
Qed.

Lemma feed_render_row (r : Row) (st : TableExtractor) :
  in_table st = true ->
  let st' := feed st (render_row r) in
  tables st' = tables st
  /\ current_table st'
     = current_table st ++ (if truthy r then [map normal_form r] else [])
  /\ in_table st' = true.
Proof.
  intros Ht. cbv zeta. unfold render_row. rewrite feed_cons, feed_app.
  cbn [feed1].
  assert (E : handle_starttag st s_tr [] = open_row st).
  { unfold handle_starttag. now rewrite Ht. }
  rewrite E.
  destruct (feed_render_cells r (open_row st) eq_refl) as (H1 & H2 & H3 & H4 & H5).
  cbn [open_row tables current_table current_row in_table app] in H1, H2, H3, H4.
  set (s := feed (open_row st) (concat (map render_cell r))) in *.
  cbn [feed fold_left feed1].
  assert (E' : handle_endtag s s_tr = close_row s).
  { unfold handle_endtag. now rewrite H5. }
  rewrite E'. cbn [close_row tables current_table in_table].
  rewrite H1, H2, H3, H4. repeat split; [|exact Ht].
  destruct r; [now rewrite app_nil_r | reflexivity].
Qed.

Lemma feed_render_rows (t : Table) (st : TableExtractor) :
  in_table st = true ->
  let st' := feed st (concat (map render_row t)) in
  tables st' = tables st
  /\ current_table st' = current_table st ++ parsed_rows t
  /\ in_table st' = true.
Proof.
  revert st. induction t as [|r t IH]; intros st Ht; cbv zeta.
  - simpl. rewrite app_nil_r. repeat split. exact Ht.
  - cbn [map concat]. rewrite feed_app.
    destruct (feed_render_row r st Ht) as (H1 & H2 & H3).
    destruct (IH _ H3) as (I1 & I2 & I3).
    rewrite I1, I2, I3, H1, H2. repeat split.
    rewrite <- app_assoc. f_equal. unfold parsed_rows. cbn [map filter].
    destruct r; reflexivity.
Qed.

Lemma feed_render_table (t : Table) (st : TableExtractor) :
  tables (feed st (render_table t))
  = tables st ++ (if truthy (parsed_rows t) then [parsed_rows t] else []).
Proof.
  unfold render_table. rewrite feed_cons, feed_app. cbn [feed1].
  change (handle_starttag st s_table []) with (open_table st).
  destruct (feed_render_rows t (open_table st) eq_refl) as (H1 & H2 & H3).
  cbn [open_table tables current_table app] in H1, H2.
  set (s := feed (open_table st) (concat (map render_row t))) in *.
  cbn [feed fold_left feed1].
  assert (E : handle_endtag s s_table = close_table s).
  { unfold handle_endtag. now rewrite H3. }
  rewrite E. cbn [close_table tables]. rewrite H1, H2.
  destruct (truthy (parsed_rows t)); [reflexivity | now rewrite app_nil_r].
Qed.

Lemma feed_render (ts : list Table) (st : TableExtractor) :
  tables (feed st (render ts)) = tables st ++ parsed_tables ts.
Proof.
  revert st. induction ts as [|t ts IH]; intros st.
  - simpl. now rewrite app_nil_r.
  - unfold render. cbn [map concat]. rewrite feed_app. fold (render ts).
    rewrite IH, feed_render_table, <- app_assoc. f_equal.
    unfold parsed_tables. cbn [map filter].
    destruct (truthy (parsed_rows t)); reflexivity.
Qed.

Lemma normal_form_tidy_row (r : Row) : tidy_row r -> map normal_form r = r.
Proof.
  induction 1 as [|c r Hc _ IH]; [reflexivity|].
  cbn [map]. rewrite IH. f_equal.
  destruct (tidy_fix c Hc) as [H1 H2]. unfold normal_form. now rewrite H1.
Qed.

Lemma parsed_rows_fix (t : Table) :
  rows_nonempty t -> tidy_table t -> parsed_rows t = t.
Proof.
  unfold parsed_rows. induction 1 as [|r t Hr _ IH]; intros Ht; [reflexivity|].
  inversion Ht as [|? ? Hr' Ht']; subst. cbn [map filter].
  rewrite (normal_form_tidy_row r Hr'), (IH Ht').
  destruct r; [contradiction | reflexivity].
Qed.

Lemma parsed_tables_fix (ts : list Table) :
  Forall table_shaped ts -> Forall tidy_table ts -> parsed_tables ts = ts.
Proof.
  unfold parsed_tables. induction 1 as [|t ts [Hne Hr] _ IH]; intros Ht;
    [reflexivity|].
  inversion Ht as [|? ? Ht1 Ht2]; subst. cbn [map filter].
  rewrite (parsed_rows_fix t Hr Ht1), (IH Ht2).
  destruct t; [contradiction | reflexivity].
Qed.

End RenderFacts.

(** ** Header cells *)

Section HeaderFacts.

Lemma th_to_td_guards (tag : str) :
  eqb (lower (th_to_td_tag tag)) s_table = eqb (lower tag) s_table
  /\ eqb (lower (th_to_td_tag tag)) s_tr = eqb (lower tag) s_tr
  /\ mem (lower (th_to_td_tag tag)) [s_td; s_th] = mem (lower tag) [s_td; s_th].
Proof.
  unfold th_to_td_tag. destruct (eqb (lower tag) s_th) eqn:E; [|repeat split].
  apply eqb_eq in E. rewrite E. repeat split.
Qed.

Lemma forget_header_feed1 (st st' : TableExtractor) (e : event) :
  forget_header st' = forget_header st ->
  forget_header (feed1 st' (th_to_td e)) = forget_header (feed1 st e).
Proof.
  intros H.
  destruct st as [T ct cr cc it ir ic ih n], st' as [T' ct' cr' cc' it' ir' ic' ih' n'].
  unfold forget_header in H. cbn in H. inversion H; subst. clear H.
  destruct e as [tag attrs | tag | data]; cbn [th_to_td feed1].
  - unfold handle_starttag.
    destruct (th_to_td_guards tag) as (-> & -> & ->). cbn.
    destruct (eqb (lower tag) s_table); [reflexivity|].
    destruct (eqb (lower tag) s_tr && it); [reflexivity|].
    destruct ((eqb (lower tag) s_td || (eqb (lower tag) s_th || false)) && ir);
      reflexivity.
  - unfold handle_endtag.
    destruct (th_to_td_guards tag) as (-> & -> & ->). cbn.
    destruct (eqb (lower tag) s_table && it); [reflexivity|].
    destruct (eqb (lower tag) s_tr && ir); [reflexivity|].
    destruct ((eqb (lower tag) s_td || (eqb (lower tag) s_th || false)) && ic);
      reflexivity.
  - unfold handle_data. cbn. destruct ic; [|reflexivity].
    destruct (truthy (strip data)); reflexivity.
Qed.

Lemma forget_header_feed (evs : list event) (st st' : TableExtractor) :
  forget_header st' = forget_header st ->
  forget_header (feed st' (map th_to_td evs)) = forget_header (feed st evs).
Proof.
  revert st st'. induction evs as [|e evs IH]; intros st st' H; [exact H|].
  cbn [map]. rewrite !feed_cons. now apply IH, forget_header_feed1.
Qed.

End HeaderFacts.

(** ** File names *)

Section FileNameFacts.

Lemma In_firstn_In {A : Type} (n : nat) (l : list A) (x : A) :
  In x (firstn n l) -> In x l.
Proof.
  revert l. induction n as [|n IH]; intros [|y l]; simpl; try tauto.
  intros [H | H]; [now left | right; now apply IH].
Qed.

Lemma sub_invalid_length (s : str) : List.length (sub_invalid s) = List.length s.
Proof. apply length_map. Qed.

Lemma sub_invalid_valid (s : str) :
  Forall (fun c => invalid_char c = false) (sub_invalid s).
Proof.
  induction s as [|c r IH]; simpl; constructor; [|exact IH].
  destruct (invalid_char c) eqn:E; [reflexivity | exact E].
Qed.

Lemma sub_invalid_fix (s : str) :
  Forall (fun c => invalid_char c = false) s -> sub_invalid s = s.
Proof.
  induction 1 as [|c r Hc _ IH]; simpl; [reflexivity|]. now rewrite Hc, IH.
Qed.

Lemma sub_ws_by_from_length (rep : char) (b : bool) (s : str) :
  List.length (sub_ws_by_from rep b s) <= List.length s.
Proof.
  revert b. induction s as [|c r IH]; intros b; simpl; [lia|].
  destruct (isspace c); [destruct b|]; simpl;
    try (specialize (IH true); lia); specialize (IH false); lia.
Qed.

Lemma sub_ws_by_from_chars (rep : char) (P : char -> Prop) (b : bool) (s : str) :
  P rep -> Forall P s ->
  Forall (fun c => P c /\ (isspace c = false \/ c = rep))
         (sub_ws_by_from rep b s).
Proof.
  intros Hrep H. revert b. induction H as [|c r Hc _ IH]; intros b; simpl;
    [constructor|].
  destruct (isspace c) eqn:E; [destruct b|]; try apply IH.
  - constructor; [split; [exact Hrep | now right] | apply IH].
  - constructor; [split; [exact Hc | now left] | apply IH].
Qed.

Lemma sub_ws_by_from_fix (rep : char) (b : bool) (s : str) :
  Forall (fun c => isspace c = false) s -> sub_ws_by_from rep b s = s.
Proof.
  intros H. revert b. induction H as [|c r Hc _ IH]; intros b; simpl;
    [reflexivity|]. now rewrite Hc, IH.
Qed.

(** The one-space instance is the substitution of the cell text. *)
Lemma sub_ws_by_SPACE (b : bool) (s : str) :
  sub_ws_by_from SPACE b s = sub_ws_from b s.
Proof.
  revert b. induction s as [|c r IH]; intros b; simpl; [reflexivity|].
  now rewrite !IH.
Qed.

Lemma safe_char_split (c : char) :
  safe_char c = true <-> invalid_char c = false /\ isspace c = false.
Proof.
  unfold safe_char. rewrite andb_true_iff, !negb_true_iff. tauto.
Qed.

Lemma clean_filename_chars (s : str) :
  Forall (fun c => safe_char c = true) (clean_filename s).
Proof.
  apply Forall_forall. intros c Hc. unfold clean_filename in Hc.
  apply In_firstn_In in Hc. unfold sub_ws_by in Hc.
  pose proof (sub_ws_by_from_chars UNDERSCORE
                (fun c => invalid_char c = false) false (sub_invalid s)
                eq_refl (sub_invalid_valid s)) as H.
  rewrite Forall_forall in H. destruct (H c Hc) as [Hv [Hs | ->]].
  - now apply safe_char_split.
  - reflexivity.
Qed.

Lemma clean_filename_fix (s : str) :
  Forall (fun c => safe_char c = true) s -> List.length s <= 100 ->
  clean_filename s = s.
Proof.
  intros H L. unfold clean_filename, sub_ws_by.
  rewrite sub_invalid_fix, sub_ws_by_from_fix.
  - now apply firstn_all2.
  - eapply Forall_impl; [|exact H]. intros c Hc. now apply safe_char_split in Hc.
  - eapply Forall_impl; [|exact H]. intros c Hc. now apply safe_char_split in Hc.
Qed.

Lemma clean_filename_length (s : str) :
  List.length (clean_filename s) <= 100
  /\ List.length (clean_filename s) <= List.length s.
Proof.
  unfold clean_filename. split; [apply firstn_le_length|].
  rewrite length_firstn.
  pose proof (sub_ws_by_from_length UNDERSCORE false (sub_invalid s)) as H.
  rewrite sub_invalid_length in H. unfold sub_ws_by. lia.
Qed.

Lemma of_string_inj (a b : string) : of_string a = of_string b -> a = b.
Proof.
  unfold of_string. intros H.
  rewrite <- (string_of_list_ascii_of_string a),
          <- (string_of_list_ascii_of_string b).
  f_equal. revert H.
  generalize (list_ascii_of_string a) (list_ascii_of_string b).
  induction l as [|x l IH]; intros [|y l']; simpl; try discriminate;
    [reflexivity|].
  intros H. inversion H as [[Hx Hl]]. f_equal; [|now apply IH].
  now rewrite <- (ascii_N_embedding x), <- (ascii_N_embedding y), Hx.
Qed.

Lemma str_of_nat_inj (i j : nat) : str_of_nat i = str_of_nat j -> i = j.
Proof.
  unfold str_of_nat. intros H. apply of_string_inj in H.
  apply Unsigned.to_uint_inj.
  pose proof (NilEmpty.usu (Nat.to_uint i)) as Hi.
  pose proof (NilEmpty.usu (Nat.to_uint j)) as Hj.
  rewrite H in Hi. congruence.
Qed.

Lemma csv_name_inj (page_title : str) (i j : nat) :
  csv_name page_title i = csv_name page_title j -> i = j.
Proof.
  unfold csv_name. intros H.
  apply app_inv_head, app_inv_head, app_inv_tail in H.
  now apply str_of_nat_inj.
Qed.

Lemma uint_chars_safe (d : Decimal.uint) :
  Forall (fun c => safe_char c = true) (of_string (NilEmpty.string_of_uint d)).
Proof.
  induction d; cbn [NilEmpty.string_of_uint]; unfold of_string in *;
    cbn [list_ascii_of_string map]; constructor; auto.
Qed.

Lemma csv_name_chars (page_title : str) (i : nat) :
  Forall (fun c => safe_char c = true) page_title ->
  Forall (fun c => safe_char c = true) (csv_name page_title i).
Proof.
  intros H. unfold csv_name. repeat (apply Forall_app; split).
  - exact H.
  - repeat constructor.
  - apply uint_chars_safe.
  - repeat constructor.
Qed.

Lemma saves_from_names (page_title : str) (ts : list Table) (i : nat) (nm : str) :
  In nm (map fst (saves_from page_title i ts)) ->
  exists k, i <= k /\ nm = csv_name page_title k.
Proof.
  revert i. induction ts as [|t ts IH]; intros i; cbn [saves_from map];
    [intros []|].
  rewrite map_app, in_app_iff. intros [H | H].
  - destruct (truthy t); [|destruct H].
    destruct H as [<- | []]. exists i. split; [lia | reflexivity].
  - destruct (IH (S i) H) as (k & Hk & ->). exists k. split; [lia | reflexivity].
Qed.

Lemma saves_from_NoDup (page_title : str) (ts : list Table) (i : nat) :
  NoDup (map fst (saves_from page_title i ts)).
Proof.
  revert i. induction ts as [|t ts IH]; intros i; cbn [saves_from map];
    [constructor|].
  rewrite map_app. destruct (truthy t); [|apply IH].
  cbn [map fst app]. constructor; [|apply IH].
  intros Hin. apply saves_from_names in Hin as (k & Hk & Heq).
  apply csv_name_inj in Heq. lia.
Qed.

Lemma saves_from_shaped (page_title : str) (ts : list Table) (i : nat) :
  Forall table_shaped ts ->
  saves_from page_title i ts
  = combine (map (csv_name page_title) (seq i (List.length ts))) ts.
Proof.
  intros H. revert i. induction H as [|t ts [Hne _] _ IH]; intros i;
    [reflexivity|].
  cbn [saves_from List.length seq map combine]. rewrite IH.
  destruct t; [contradiction | reflexivity].
Qed.

Lemma saves_from_name_list (page_title : str) (ts : list Table) (i : nat) :
  Forall table_shaped ts ->
  map fst (saves_from page_title i ts)
  = map (csv_name page_title) (seq i (List.length ts)).
Proof.
  intros H. revert i. induction H as [|t ts [Hne _] _ IH]; intros i;
    [reflexivity|].
  cbn [saves_from List.length seq map]. rewrite map_app, IH.
  destruct t; [contradiction | reflexivity].
Qed.

Lemma saves_from_tables (page_title : str) (ts : list Table) (i : nat) :
  Forall table_shaped ts -> map snd (saves_from page_title i ts) = ts.
Proof.
  intros H. revert i. induction H as [|t ts [Hne _] _ IH]; intros i;
    [reflexivity|].
  cbn [saves_from]. rewrite map_app, IH.
  destruct t; [contradiction | reflexivity].
Qed.

End FileNameFacts.

(** ** The summary *)

Section SummaryFacts.

Lemma show_header_length (h : str) : List.length (show_header h) <= 25.
Proof.
  unfold show_header. destruct (Nat.ltb 20 (List.length h)) eqn:E.
  - apply Nat.ltb_lt in E. cbn [List.length].
    rewrite !List.length_app, firstn_length_le by lia.
    change (List.length (of_string "...")) with 3. cbn [List.length]. lia.
  - apply Nat.ltb_ge in E. cbn [List.length].
    rewrite List.length_app. cbn [List.length]. lia.
Qed.

Lemma join_length_bound (sep : str) (m : nat) (xs : list str) :
  Forall (fun x => List.length x <= m) xs -> xs <> [] ->
  List.length (join sep xs) + List.length sep
  <= List.length xs * (m + List.length sep).
Proof.
  induction 1 as [|x r Hx Hr IH]; intros Hne; [contradiction|].
  destruct r as [|y r'].
  - simpl. lia.
  - change (join sep (x :: y :: r')) with (x ++ sep ++ join sep (y :: r')).
    rewrite !List.length_app.
    assert (Hn : y :: r' <> []) by discriminate.
    specialize (IH Hn). cbn [List.length] in *. lia.
Qed.

Lemma summary_from_shaped (ts : list Table) (i : nat) :
  Forall table_shaped ts ->
  List.length (summary_from i ts) = 2 * List.length ts.
Proof.
  intros H. revert i. induction H as [|t ts [Hne Hr] _ IH]; intros i;
    [reflexivity|].
  cbn [summary_from]. rewrite List.length_app, IH.
  destruct t as [|row0 t]; [contradiction|].
  inversion Hr as [|? ? H0 _]; subst.
  destruct row0; [contradiction|]. cbn. lia.
Qed.

End SummaryFacts.

(** ** Further properties of the parser *)

(** X1: the result set only grows: what a prefix of a stream has emitted
    stays, in the same order, at the front of what the whole stream
    emits. *)
Theorem result_set_append_only (evs1 evs2 : list event) :
  exists later : list Table, extract (evs1 ++ evs2) = extract evs1 ++ later.
Proof. unfold extract. rewrite feed_app. apply feed_tables_extend. Qed.

(** X2: after a stream the counter is the number of its open "table"
    events, and it is never below the number of tables emitted. *)
Theorem table_count_counts_opens (evs : list event) :
  table_count (feed init evs)
  = Z.of_nat (List.length (filter is_open_table evs))
  /\ (Z.of_nat (List.length (extract evs)) <= table_count (feed init evs))%Z.
Proof.
  split; [now rewrite feed_table_count|].
  assert (H : counter_inv (feed init evs)).
  { apply counter_inv_feed. unfold counter_inv. simpl. lia. }
  unfold counter_inv in H. unfold extract.
  destruct (in_table (feed init evs)); lia.
Qed.

(** X3: a stream without an open "table" event, and a stream without a
    close "table" event, yield the empty result set: rows outside a table
    and the rows of a table that is never closed are not emitted. *)
Theorem no_table_tag_no_result (evs : list event) :
  forallb (fun e => negb (is_open_table e)) evs = true
  \/ forallb (fun e => negb (is_close_table e)) evs = true ->
  extract evs = [].
Proof.
  intros [H | H]; unfold extract.
  - now rewrite feed_closed_no_open.
  - apply length_zero_iff_nil.
    now rewrite feed_tables_length, emitting_closes_no_close.
Qed.

Lemma no_table_tag_no_result_witness :
  extract [op "table"; op "tr"; op "td"; txt "lost"; cl "td"; cl "tr"] = []
  /\ extract [op "tr"; op "td"; txt "lost"; cl "td"; cl "tr"; cl "table"] = [].
Proof.
  split; apply no_table_tag_no_result; [right | left]; reflexivity.
Defined.

(** X4: tags other than table, tr, td and th, and texts that are blank,
    can be deleted from a stream: the parser ends in the same state. *)
Theorem irrelevant_events_deletable (st : TableExtractor) (evs : list event) :
  feed st (filter relevant evs) = feed st evs.
Proof.
  revert st. induction evs as [|e evs IH]; intros st; [reflexivity|].
  cbn [filter]. destruct (relevant e) eqn:E.
  - rewrite !feed_cons. apply IH.
  - rewrite feed_cons, (feed1_irrelevant st e E). apply IH.
Qed.

(** X5: every cell of every row of every emitted table is tidy: it is
    left as it is by trimming and by collapsing whitespace, each
    whitespace character in it is U+0020, and no two of them are
    adjacent. *)
Theorem result_cells_tidy (evs : list event) (t : Table) (r : Row) (c : str) :
  In t (extract evs) -> In r t -> In c r ->
  tidy c = true
  /\ strip c = c
  /\ sub_ws c = c
  /\ (forall x, In x c -> isspace x = true -> x = SPACE)
  /\ (forall u x y v, c = u ++ x :: y :: v ->
        isspace x = true -> isspace y = false).
Proof.
  intros Ht Hr Hc.
  destruct (tidy_inv_feed evs init tidy_inv_init) as (H & _ & _).
  rewrite Forall_forall in H. specialize (H t Ht).
  unfold tidy_table in H. rewrite Forall_forall in H. specialize (H r Hr).
  unfold tidy_row in H. rewrite Forall_forall in H. specialize (H c Hc).
  destruct (tidy_fix c H) as [H1 H2].
  split; [exact H|]. split; [exact H1|]. split; [exact H2|].
  destruct c as [|x0 c']; [split; [intros x [] | intros [|? ?] ? ? ? E; discriminate E]|].
  exact (tidy_from_spaces (x0 :: c') true H).
Qed.

Lemma result_cells_tidy_witness :
  tidy (lit "multi space text") = true.
Proof.
  refine (proj1 (result_cells_tidy
                   [op "table"; op "tr"; op "td"; Data multi_space_text;
                    cl "td"; cl "tr"; cl "table"]
                   [[lit "multi space text"]] [lit "multi space text"]
                   (lit "multi space text") _ _ _));
    left; reflexivity.
Defined.

(** X6: parsing the plain markup of any list of tables gives these tables
    with each cell trimmed and collapsed, the rows without a cell left
    out, and then the tables without a row left out. *)
Theorem render_parsed (ts : list Table) :
  extract (render ts) = parsed_tables ts.
Proof. unfold extract. now rewrite feed_render. Qed.

(** X7: round trip: when every table has a row, every row a cell and
    every cell is tidy, parsing the plain markup of the tables gives them
    back. *)
Theorem render_round_trip (ts : list Table) :
  Forall table_shaped ts -> Forall tidy_table ts ->
  extract (render ts) = ts.
Proof.
  intros Hs Ht. unfold extract.
  now rewrite feed_render, parsed_tables_fix.
Qed.

Lemma render_round_trip_witness :
  extract (render [[[lit "A"; lit "B c"]; [empty_str]]; [[lit "1"]]])
  = [[[lit "A"; lit "B c"]; [empty_str]]; [[lit "1"]]].
Proof.
  apply render_round_trip.
  - repeat constructor; discriminate.
  - repeat constructor.
Defined.

(** X8: the result set of any stream is a fixed point: written out as
    plain markup and parsed again it is unchanged. *)
Theorem reparse_fixed_point (evs : list event) :
  extract (render (extract evs)) = extract evs.
Proof.
  unfold extract at 1. rewrite feed_render. apply parsed_tables_fix.
  - destruct (suppression_inv_feed evs init suppression_inv_init) as [H _].
    exact H.
  - destruct (tidy_inv_feed evs init tidy_inv_init) as [H _]. exact H.
Qed.

(** X9: header cells are not told apart in the result: renaming every th
    tag of a stream to td gives the same result set. *)
Theorem header_cells_not_distinguished (evs : list event) :
  extract (map th_to_td evs) = extract evs.
Proof.
  unfold extract.
  change (tables (feed init (map th_to_td evs)))
    with (tables (forget_header (feed init (map th_to_td evs)))).
  now rewrite (forget_header_feed evs init init eq_refl).
Qed.

(** ** Properties of the file names, the saving loop and the summary *)

(** X10: a cleaned file name has at most 100 characters, is not longer
    than the name it comes from, and contains none of the characters
    less-than, greater-than, colon, double quote, slash, backslash,
    vertical bar, question mark, asterisk, and no whitespace. *)
Theorem clean_filename_safe (filename : str) :
  List.length (clean_filename filename) <= 100
  /\ List.length (clean_filename filename) <= List.length filename
  /\ Forall (fun c => safe_char c = true) (clean_filename filename).
Proof.
  destruct (clean_filename_length filename) as [H1 H2].
  split; [exact H1|]. split; [exact H2 | apply clean_filename_chars].
Qed.

(** X11: a name of at most 100 characters without any of the replaced
    characters and without whitespace is returned as it is. *)
Theorem clean_filename_keeps_safe_names (filename : str) :
  Forall (fun c => safe_char c = true) filename ->
  List.length filename <= 100 ->
  clean_filename filename = filename.
Proof. apply clean_filename_fix. Qed.

Lemma clean_filename_keeps_safe_names_witness :
  clean_filename (lit "Quarterly_report-2024.final") = lit "Quarterly_report-2024.final".
Proof.
  apply clean_filename_keeps_safe_names.
  - repeat constructor.
  - vm_compute. repeat constructor.
Defined.

(** X12: cleaning a file name twice is the same as cleaning it once. *)
Theorem clean_filename_idempotent (filename : str) :
  clean_filename (clean_filename filename) = clean_filename filename.
Proof.
  apply clean_filename_fix.
  - apply clean_filename_chars.
  - apply clean_filename_length.
Qed.

(** X13: the file names under which the saving loop of [main] saves the
    tables of one run are pairwise distinct, whatever the title. *)
Theorem csv_names_distinct (page_title : str) (ts : list Table) :
  NoDup (map fst (main_saves page_title ts)).
Proof. apply saves_from_NoDup. Qed.

(** X14: with a title that [clean_filename] returned, or with the
    fallback title, a file name of the saving loop contains no slash,
    no backslash, none of the other replaced characters and no
    whitespace. *)
Theorem csv_names_safe (title : str) (i : nat) :
  Forall (fun c => safe_char c = true) (csv_name (clean_filename title) i)
  /\ Forall (fun c => safe_char c = true) (csv_name default_title i).
Proof.
  split; apply csv_name_chars; [apply clean_filename_chars | repeat constructor].
Qed.

(** X15: applied to the result set of the parser, the saving loop of
    [main] skips no table: it calls [save_table_to_csv] once for each
    table, in order, the k-th table with the file name of index k. *)
Theorem extracted_tables_all_saved (page_title : str) (evs : list event) :
  main_saves page_title (extract evs)
  = combine (map (csv_name page_title) (seq 1 (List.length (extract evs))))
            (extract evs)
  /\ map snd (main_saves page_title (extract evs)) = extract evs
  /\ map fst (main_saves page_title (extract evs))
     = map (csv_name page_title) (seq 1 (List.length (extract evs))).
Proof.
  destruct (suppression_inv_feed evs init suppression_inv_init) as [H _].
  fold (extract evs) in H.
  assert (E : main_saves page_title (extract evs)
              = combine (map (csv_name page_title)
                             (seq 1 (List.length (extract evs))))
                        (extract evs)).
  { now apply saves_from_shaped. }
  split; [exact E|]. split.
  - now apply saves_from_tables.
  - now apply saves_from_name_list.
Qed.

(** X16: the sample of headers printed for a table shows at most five
    headers of at most 20 characters each, and is at most 133 characters
    long. *)
Theorem sample_headers_bounded (row0 : Row) :
  List.length (headers_str row0) <= 133.
Proof.
  unfold headers_str.
  assert (L : List.length (map show_header (firstn 5 row0)) <= 5).
  { rewrite length_map. apply firstn_le_length. }
  assert (F : Forall (fun x => List.length x <= 25)
                     (map show_header (firstn 5 row0))).
  { apply Forall_forall. intros x Hx. apply in_map_iff in Hx as (h & <- & _).
    apply show_header_length. }
  destruct (map show_header (firstn 5 row0)) as [|x xs] eqn:E; [simpl; lia|].
  assert (Hne : x :: xs <> []) by discriminate.
  pose proof (join_length_bound (of_string ", ") 25 (x :: xs) F Hne) as B.
  change (List.length (of_string ", ")) with 2 in B.
  nia.
Qed.

(** X17: for the result set of the parser the summary prints its three
    head lines and then exactly two lines per table, the size and the
    sample of headers; the line for an empty table is never printed. *)
Theorem summary_two_lines_per_table (page_title : str) (evs : list event) :
  List.length (print_table_summary (extract evs) page_title)
  = 3 + 2 * List.length (extract evs).
Proof.
  destruct (suppression_inv_feed evs init suppression_inv_init) as [H _].
  fold (extract evs) in H.
  unfold print_table_summary. rewrite List.length_app.
  now rewrite summary_from_shaped.
Qed.
